(** * Tenant catalogue, role/group synchronisation and RFP snapshots

    A shallow embedding of the two Django model modules of the backend:

    - [Auth]    : authentication/models.py, the [User] record with its
                  single-role foreign key, the [groups] many-to-many relation
                  and the three signal receivers that keep them in step;
    - [Project] : project/models.py, the tenant-owned catalogue tables, the
                  [visible_to] query, the unique constraints, the
                  [on_delete] policies and the finalized snapshot.

    Primary keys are Python integers, modelled as [Z].  Tables are finite
    maps from primary key to row, many-to-many relations are finite sets of
    primary keys, a query set is the list of its rows in query order. *)

From Stdlib Require Import ZArith.
From stdpp Require Import base option list sorting gmap sets strings.

Local Open Scope Z_scope.
Set Warnings "-clear-no-such-hyp".

(* ===================================================================== *)
(** * authentication/models.py                                            *)
(* ===================================================================== *)
Module Auth.

(** ** Data *)

(** What the database holds for one user: the column [auth_user.role_id]
    and the rows of the join table behind [User.groups]. *)
Record Stored := mkStored {
  role : option Z;
  groups : gset Z;
}.

(** The Python object that is passed to the receivers as [instance].
    [role_id] is the in-memory attribute; [_desired_role_id] is the attribute
    set by the [pre_save] receiver: [None] when the object has no such
    attribute, [Some v] when it holds [v] ([v] itself may be Python's
    [None]). *)
Record UserInstance := mkInstance {
  role_id : option Z;
  _desired_role_id : option (option Z);
}.

Record World := mkWorld {
  stored : Stored;
  instance : UserInstance;
}.

(** The [action] argument of [m2m_changed]. *)
Inductive Action :=
  | pre_add | post_add | pre_remove | post_remove | pre_clear | post_clear.

#[global] Instance Action_eq_dec : EqDecision Action.
Proof. solve_decision. Defined.

(** The signals the receivers of this module are connected to.  [pk_set] is
    a set of primary keys for the add and remove actions and Python's
    [None] for the clear actions. *)
Inductive Signal :=
  | pre_save
  | post_save
  | m2m_changed (action : Action) (pk_set : option (gset Z)).

(** [instance.groups.order_by("pk").values_list("pk", flat=True).first()] *)
Definition first_by_pk (s : gset Z) : option Z :=
  head (merge_sort Z.le (elements s)).

(** Python truthiness of [pk_set]: [None] and the empty set are false. *)
Definition truthy (pk_set : option (gset Z)) : bool :=
  match pk_set with
  | Some s => bool_decide (s ≠ ∅)
  | None => false
  end.

(** [User.objects.get(pk=...)]: a fresh object whose attributes are the
    stored columns. *)
Definition load (s : Stored) : World :=
  mkWorld s (mkInstance (role s) None).

(** [User.objects.filter(pk=instance.pk).update(role=...)]: the column is
    written in the database; no signal is sent and the Python object is
    not touched. *)
Definition update_role (new_role_id : option Z) (w : World) : World :=
  mkWorld (mkStored new_role_id (groups (stored w))) (instance w).

Definition with_groups (g : gset Z) (w : World) : World :=
  mkWorld (mkStored (role (stored w)) g) (instance w).

(** The [UPDATE] that [Model.save()] issues between [pre_save] and
    [post_save]: the in-memory [role_id] is written to the row. *)
Definition write_row (w : World) : World :=
  mkWorld (mkStored (role_id (instance w)) (groups (stored w))) (instance w).

(** [user.role_id = r] *)
Definition assign_role (r : option Z) (w : World) : World :=
  mkWorld (stored w) (mkInstance r (_desired_role_id (instance w))).

(** The invariant of the synchronisation: the stored role is null or one of
    the stored groups. *)
Definition role_in_groups (s : Stored) : Prop :=
  match role s with
  | None => True
  | Some r => r ∈ groups s
  end.

#[global] Instance role_in_groups_dec s : Decision (role_in_groups s).
Proof. unfold role_in_groups. destruct (role s); apply _. Defined.

Section Sync.
(** The order in which CPython iterates over a set of integers is not
    specified; [set_iter] is that order. *)
Context (set_iter : gset Z → list Z).

(** ** Receivers *)

(** [_remember_desired_role], connected to [pre_save]. *)
Definition _remember_desired_role (w : World) : World :=
  mkWorld (stored w)
          (mkInstance (role_id (instance w)) (Some (role_id (instance w)))).

(** [_sync_groups_to_role], connected to [m2m_changed].  It writes with
    [update_role] and so dispatches no signal of its own. *)
Definition _sync_groups_to_role
    (action : Action) (pk_set : option (gset Z)) (w : World) : World :=
  if bool_decide (action ∈ [post_add; post_remove; post_clear]) then
    let new_role_id :=
      if truthy pk_set
      then head (set_iter (default ∅ pk_set))   (* next(iter(pk_set), None) *)
      else first_by_pk (groups (stored w)) in
    if bool_decide (role_id (instance w) ≠ new_role_id)
    then update_role new_role_id w
    else w
  else w.

Section Dispatch.
(** [send] runs the receivers connected to a signal; [None] means that
    the dispatch did not come back within the nesting budget. *)
Variable send : Signal → World → option World.

(** ** The related manager [instance.groups] *)

(** [groups.add] *)
Definition groups_add (objs : list Z) (w : World) : option World :=
  match objs with
  | [] => Some w
  | _ =>
      let missing_target_ids := list_to_set objs ∖ groups (stored w) in
      w1 ← send (m2m_changed pre_add (Some missing_target_ids)) w;
      send (m2m_changed post_add (Some missing_target_ids))
           (with_groups (groups (stored w1) ∪ missing_target_ids) w1)
  end.

(** [groups.remove] *)
Definition groups_remove (objs : list Z) (w : World) : option World :=
  match objs with
  | [] => Some w
  | _ =>
      let old_ids : gset Z := list_to_set objs in
      w1 ← send (m2m_changed pre_remove (Some old_ids)) w;
      send (m2m_changed post_remove (Some old_ids))
           (with_groups (groups (stored w1) ∖ old_ids) w1)
  end.

(** [groups.clear()] *)
Definition groups_clear (w : World) : option World :=
  w1 ← send (m2m_changed pre_clear None) w;
  send (m2m_changed post_clear None) (with_groups ∅ w1).

(** The loop of [groups.set(objs)] that splits the request into the
    stored keys to drop and the objects to add. *)
Definition split_objs (old_ids : gset Z) (objs : list Z) : gset Z * list Z :=
  foldl (λ '(old_ids, new_objs) obj,
           if bool_decide (obj ∈ old_ids)
           then (old_ids ∖ {[obj]}, new_objs)
           else (old_ids, new_objs ++ [obj]))
        (old_ids, []) objs.

(** [groups.set(objs)] *)
Definition groups_set (objs : list Z) (w : World) : option World :=
  let '(old_ids, new_objs) := split_objs (groups (stored w)) objs in
  w1 ← groups_remove (set_iter old_ids) w;
  groups_add new_objs w1.

(** [_sync_role_to_groups], connected to [post_save]. *)
Definition _sync_role_to_groups (w : World) : option World :=
  match default None (_desired_role_id (instance w)) with
  | None => Some w
  | Some rid =>
      w1 ← groups_set (if bool_decide (rid ≠ 0) then [rid] else []) w;
      Some (mkWorld (stored w1) (mkInstance (role_id (instance w1)) None))
  end.

Definition receivers (sig : Signal) (w : World) : option World :=
  match sig with
  | pre_save => Some (_remember_desired_role w)
  | post_save => _sync_role_to_groups w
  | m2m_changed action pk_set => Some (_sync_groups_to_role action pk_set w)
  end.
End Dispatch.

(** Signal dispatch with a budget on the nesting of receivers. *)
Fixpoint send (fuel : nat) (sig : Signal) (w : World) : option World :=
  match fuel with
  | O => None
  | S fuel' => receivers (send fuel') sig w
  end.

(** [Model.save()] *)
Definition save (fuel : nat) (w : World) : option World :=
  w1 ← send fuel pre_save w;
  send fuel post_save (write_row w1).

(** The operations a caller has on the role and the groups of a user. *)
Inductive Op :=
  | SetRole (r : option Z)            (* user.role_id = r; user.save() *)
  | AddGroups (objs : list Z)         (* user.groups.add *)
  | RemoveGroups (objs : list Z)      (* user.groups.remove *)
  | SetGroups (objs : list Z)         (* user.groups.set(objs) *)
  | ClearGroups.                      (* user.groups.clear() *)

Definition exec (fuel : nat) (op : Op) (w : World) : option World :=
  match op with
  | SetRole r => save fuel (assign_role r w)
  | AddGroups objs => groups_add (send fuel) objs w
  | RemoveGroups objs => groups_remove (send fuel) objs w
  | SetGroups objs => groups_set (send fuel) objs w
  | ClearGroups => groups_clear (send fuel) w
  end.

End Sync.

End Auth.

(* ===================================================================== *)
(** * project/models.py                                                   *)
(* ===================================================================== *)
Module Project.

(** ** Values *)

(** The content of a [JSONField]. *)
#[local] Unset Elimination Schemes.
Inductive Json :=
  | JNull
  | JBool (b : bool)
  | JNum (n : Z)
  | JStr (s : string)
  | JArr (items : list Json)
  | JObj (members : list (string * Json)).
#[local] Set Elimination Schemes.

(** [dict.get(key, default)] on a JSON value. *)
Definition json_get (key : string) (default : Json) (j : Json) : Json :=
  match j with
  | JObj members =>
      match list_find (λ kv, kv.1 = key) members with
      | Some (_, (_, v)) => v
      | None => default
      end
  | _ => default
  end.

(** What the database layer raises.  [IntegrityError] carries the name of
    the violated constraint, [ProtectedError] the reference that protects
    the row. *)
Inductive DbError :=
  | IntegrityError (constraint : string)
  | ProtectedError (reference : string).

Abbreviation Result A := (sum DbError A) (only parsing).

(** A nullable foreign key points into a set of primary keys. *)
Definition refs (fk : option Z) (c : gset Z) : Prop :=
  match fk with
  | Some k => k ∈ c
  | None => False
  end.

#[global] Instance refs_dec fk c : Decision (refs fk c).
Proof. unfold refs. destruct fk; apply _. Defined.

(** The primary key the database gives to the next inserted row.
    [BaseModel] is declared outside these two modules; its key is taken to
    be an auto-incremented integer. *)
Definition next_pk {A} (t : gmap Z A) : Z :=
  1 + foldr Z.max 0 (elements (dom t)).

(** ** Mixins *)

(** [TenantOwnedMixin]: [organization] null is a global row, otherwise the
    row is private to that tenant; [user] is the creator. *)
Class TenantOwnedMixin (M : Type) := {
  organization : M → option Z;
  user : M → option Z;
  set_user : option Z → M → M;
}.

(** [OrgVisibilityMixin]: the tenants that must not see the row. *)
Class OrgVisibilityMixin (M : Type) := {
  blocked_for : M → gset Z;
}.

(** The [UniqueConstraint(fields=['organization', key])] of a catalogue
    model: the key column and the name of the constraint. *)
Class UniqueTenantName (M : Type) := {
  natural_key : M → string;
  constraint_name : string;
}.

(** ** Canonical tenant-aware tables *)

Module Industry.
Record t := mk {
  organization : option Z;
  user : option Z;
  blocked_for : gset Z;
  name : string;
  description : string;
  url : string;
}.
End Industry.

Module Service.
Record t := mk {
  organization : option Z;
  user : option Z;
  name : string;
  description : string;
}.
End Service.

Module BusinessCycle.
Record t := mk {
  organization : option Z;
  user : option Z;
  order : Z;
  name : string;
  description : string;
}.
End BusinessCycle.

Module FunctionalArea.
Record t := mk {
  organization : option Z;
  user : option Z;
  business_cycle : Z;
  order : Z;
  name : string;
  description : string;
}.
End FunctionalArea.

Module Provider.
Record t := mk {
  organization : option Z;
  user : option Z;
  company_name : string;
  contact_name : string;
  contact_phone : string;
  contact_email : string;
}.
End Provider.

#[global] Instance Industry_owned : TenantOwnedMixin Industry.t := {|
  organization := Industry.organization;
  user := Industry.user;
  set_user u r :=
    Industry.mk (Industry.organization r) u (Industry.blocked_for r)
                (Industry.name r) (Industry.description r) (Industry.url r);
|}.
#[global] Instance Industry_visibility : OrgVisibilityMixin Industry.t := {|
  blocked_for := Industry.blocked_for;
|}.
#[global] Instance Industry_unique : UniqueTenantName Industry.t := {|
  natural_key := Industry.name;
  constraint_name := "unique_tenant_industry_name";
|}.

#[global] Instance Service_owned : TenantOwnedMixin Service.t := {|
  organization := Service.organization;
  user := Service.user;
  set_user u r :=
    Service.mk (Service.organization r) u (Service.name r) (Service.description r);
|}.
#[global] Instance Service_unique : UniqueTenantName Service.t := {|
  natural_key := Service.name;
  constraint_name := "unique_tenant_service_name";
|}.

#[global] Instance BusinessCycle_owned : TenantOwnedMixin BusinessCycle.t := {|
  organization := BusinessCycle.organization;
  user := BusinessCycle.user;
  set_user u r :=
    BusinessCycle.mk (BusinessCycle.organization r) u (BusinessCycle.order r)
                     (BusinessCycle.name r) (BusinessCycle.description r);
|}.
#[global] Instance BusinessCycle_unique : UniqueTenantName BusinessCycle.t := {|
  natural_key := BusinessCycle.name;
  constraint_name := "unique_tenant_businesscycle_name";
|}.

#[global] Instance FunctionalArea_owned : TenantOwnedMixin FunctionalArea.t := {|
  organization := FunctionalArea.organization;
  user := FunctionalArea.user;
  set_user u r :=
    FunctionalArea.mk (FunctionalArea.organization r) u
                      (FunctionalArea.business_cycle r) (FunctionalArea.order r)
                      (FunctionalArea.name r) (FunctionalArea.description r);
|}.
#[global] Instance FunctionalArea_unique : UniqueTenantName FunctionalArea.t := {|
  natural_key := FunctionalArea.name;
  constraint_name := "unique_tenant_functionalarea_name";
|}.

#[global] Instance Provider_owned : TenantOwnedMixin Provider.t := {|
  organization := Provider.organization;
  user := Provider.user;
  set_user u r :=
    Provider.mk (Provider.organization r) u (Provider.company_name r)
                (Provider.contact_name r) (Provider.contact_phone r)
                (Provider.contact_email r);
|}.
#[global] Instance Provider_unique : UniqueTenantName Provider.t := {|
  natural_key := Provider.company_name;
  constraint_name := "unique_tenant_provider_name";
|}.

(** ** TenantAwareQuerySet *)

Section TenantAwareQuerySet.
Context {M : Type} `{TenantOwnedMixin M}.

(** [qs.exclude(blocked_for=org)].  For an organization the rows whose
    block list holds it are dropped.  For [org] equal to Python's [None]
    Django reads the lookup as [blocked_for__isnull=True], which matches
    the rows that have no entry in the relation, and those are the rows
    that are dropped. *)
Definition exclude_blocked_for `{OrgVisibilityMixin M}
    (org : option Z) (qs : list M) : list M :=
  match org with
  | Some o => filter (λ r, o ∉ blocked_for r) qs
  | None => filter (λ r, blocked_for r ≠ ∅) qs
  end.

(** [visible_to].  [has_blocked_for] is [hasattr(self.model, "blocked_for")]:
    the instance of the mixin when the model inherits it. *)
Definition visible_to (has_blocked_for : option (OrgVisibilityMixin M))
    (org : option Z) (qs : list M) : list M :=
  let qs :=
    match org with
    | None => filter (λ r, organization r = None) qs
    | Some o => filter (λ r, organization r = None ∨ organization r = Some o) qs
    end in
  match has_blocked_for with
  | Some OV => exclude_blocked_for org qs
  | None => qs
  end.
End TenantAwareQuerySet.

(** ** Unique constraints of the catalogue tables *)

Section UniqueConstraint.
Context {M : Type} `{TenantOwnedMixin M} `{UniqueTenantName M}.

(** A row [r] conflicts with a stored row on the constraint over
    [(organization, key)].  As in SQL, a null [organization] is distinct
    from every value, itself included, so a global row conflicts with
    nothing. *)
Definition conflicts (r : M) (t : gmap Z M) : Prop :=
  is_Some (organization r) ∧
  map_Exists (λ _ r', organization r' = organization r
                      ∧ natural_key r' = natural_key r) t.

#[global] Instance conflicts_dec r t : Decision (conflicts r t).
Proof. unfold conflicts. apply _. Defined.

(** [Model.objects.create(...)] *)
Definition create (r : M) (t : gmap Z M) : Result (gmap Z M) :=
  if decide (conflicts r t)
  then inl (IntegrityError constraint_name)
  else inr (<[next_pk t := r]> t).
End UniqueConstraint.

(** ** RFP-specific models *)

Module ProjectGeneratedRFPService.
Record t := mk {
  generated_rfp : option Z;      (* on_delete=CASCADE, null=True *)
  service : option Z;            (* on_delete=PROTECT, null=True *)
}.
End ProjectGeneratedRFPService.

Module ProjectGeneratedRFPBusinessCycle.
Record t := mk {
  generated_rfp : Z;             (* on_delete=CASCADE *)
  business_cycle : Z;            (* on_delete=PROTECT *)
}.
End ProjectGeneratedRFPBusinessCycle.

Module GeneratedRFP.
Record t := mk {
  status : string;
  start_date : option Z;
  end_date : option Z;
  rfp_name : string;
  rfp_description : string;
  company_url : string;
  value_propositions : string;
  organization : option Z;       (* on_delete=CASCADE, null=True *)
  user : Z;                      (* on_delete=CASCADE *)
  allowed_users : gset Z;
  industry : Z;                  (* on_delete=CASCADE *)
  questionnaires : Json;
  descriptions : Json;
}.
End GeneratedRFP.

Module ProjectGeneratedRFPArea.
Inductive Priority := LOW | MEDIUM | HIGH.

Record t := mk {
  generated_rfp : Z;             (* on_delete=CASCADE *)
  area : Z;                      (* on_delete=PROTECT *)
  priority : Priority;
}.

(** The stored value of a choice. *)
Definition value (p : Priority) : string :=
  match p with LOW => "low" | MEDIUM => "medium" | HIGH => "high" end.
End ProjectGeneratedRFPArea.

Module SubmittedRFP.
Record t := mk {
  rfp : option Z;                (* on_delete=CASCADE, null=True *)
  user : option Z;               (* on_delete=CASCADE, null=True *)
  status : string;
  pdf_link : string;
  is_opened : bool;
  recived_person : string;
  recived_person_email : string;
}.
End SubmittedRFP.

Module FinalizedRFP.
Record t := mk {
  source_rfp : option Z;         (* on_delete=SET_NULL, null=True *)
  organization : Z;              (* on_delete=CASCADE *)
  status : string;
  start_date : option Z;
  end_date : option Z;
  snapshot_data : Json;
}.

(** The title part of [__str__]:
    [self.snapshot_data.get('rfp_name', 'Finalized RFP')]. *)
Definition title (f : t) : Json :=
  json_get "rfp_name" (JStr "Finalized RFP") (snapshot_data f).
End FinalizedRFP.

Module ResponseRFP.
Record t := mk {
  provider : Z;                  (* on_delete=CASCADE *)
  rfp : Z;                       (* on_delete=CASCADE *)
  user : Z;                      (* on_delete=CASCADE *)
  submitted_rfp : Z;             (* on_delete=CASCADE *)
  completed_fields : Json;
  response_fields : Json;
  is_accepted : bool;
  is_rejected : bool;
  is_pending : bool;
  status : string;
}.
End ResponseRFP.

Module ProjectFunctionalAreaSession.
Record t := mk {
  session_id : string;
  user : Z;                      (* on_delete=CASCADE *)
  functional_area : Z;           (* on_delete=CASCADE *)
}.
End ProjectFunctionalAreaSession.

(** ** The tables of the application *)

Record Database := mkDatabase {
  industries : gmap Z Industry.t;
  services : gmap Z Service.t;
  business_cycles : gmap Z BusinessCycle.t;
  functional_areas : gmap Z FunctionalArea.t;
  providers : gmap Z Provider.t;
  generated_rfps : gmap Z GeneratedRFP.t;
  rfp_services : gmap Z ProjectGeneratedRFPService.t;
  rfp_business_cycles : gmap Z ProjectGeneratedRFPBusinessCycle.t;
  rfp_areas : gmap Z ProjectGeneratedRFPArea.t;
  submitted_rfps : gmap Z SubmittedRFP.t;
  finalized_rfps : gmap Z FinalizedRFP.t;
  response_rfps : gmap Z ResponseRFP.t;
  fa_sessions : gmap Z ProjectFunctionalAreaSession.t;
}.

Definition empty_db : Database :=
  mkDatabase ∅ ∅ ∅ ∅ ∅ ∅ ∅ ∅ ∅ ∅ ∅ ∅ ∅.

Definition set_generated_rfps (t : gmap Z GeneratedRFP.t) (db : Database) :=
  mkDatabase (industries db) (services db) (business_cycles db)
    (functional_areas db) (providers db) t (rfp_services db)
    (rfp_business_cycles db) (rfp_areas db) (submitted_rfps db)
    (finalized_rfps db) (response_rfps db) (fa_sessions db).

Definition set_rfp_services (t : gmap Z ProjectGeneratedRFPService.t) (db : Database) :=
  mkDatabase (industries db) (services db) (business_cycles db)
    (functional_areas db) (providers db) (generated_rfps db) t
    (rfp_business_cycles db) (rfp_areas db) (submitted_rfps db)
    (finalized_rfps db) (response_rfps db) (fa_sessions db).

Definition set_rfp_business_cycles
    (t : gmap Z ProjectGeneratedRFPBusinessCycle.t) (db : Database) :=
  mkDatabase (industries db) (services db) (business_cycles db)
    (functional_areas db) (providers db) (generated_rfps db) (rfp_services db)
    t (rfp_areas db) (submitted_rfps db)
    (finalized_rfps db) (response_rfps db) (fa_sessions db).

Definition set_rfp_areas (t : gmap Z ProjectGeneratedRFPArea.t) (db : Database) :=
  mkDatabase (industries db) (services db) (business_cycles db)
    (functional_areas db) (providers db) (generated_rfps db) (rfp_services db)
    (rfp_business_cycles db) t (submitted_rfps db)
    (finalized_rfps db) (response_rfps db) (fa_sessions db).

Definition set_finalized_rfps (t : gmap Z FinalizedRFP.t) (db : Database) :=
  mkDatabase (industries db) (services db) (business_cycles db)
    (functional_areas db) (providers db) (generated_rfps db) (rfp_services db)
    (rfp_business_cycles db) (rfp_areas db) (submitted_rfps db)
    t (response_rfps db) (fa_sessions db).

(** ** Deletion: the [on_delete] policies *)

(** The row a caller deletes. *)
Inductive Target :=
  | TUser (pk : Z)
  | TIndustry (pk : Z)
  | TService (pk : Z)
  | TBusinessCycle (pk : Z)
  | TFunctionalArea (pk : Z)
  | TProvider (pk : Z)
  | TGeneratedRFP (pk : Z)
  | TRfpService (pk : Z)
  | TRfpBusinessCycle (pk : Z)
  | TRfpArea (pk : Z).

(** Primary keys of the rows that satisfy [P]. *)
Definition keys_where {A} (P : A → Prop) `{!∀ x, Decision (P x)}
    (t : gmap Z A) : gset Z :=
  dom (filter (λ kv, P kv.2) t).

(** The table without the rows whose key is in [c]. *)
Definition without_keys {A} (c : gset Z) (t : gmap Z A) : gmap Z A :=
  filter (λ kv, kv.1 ∉ c) t.

Section Collector.
Context (db : Database) (target : Target).

(** *** What is collected: the target and everything reached from it
    through [on_delete=CASCADE] references. *)

Definition users_deleted : gset Z :=
  match target with TUser k => {[k]} | _ => ∅ end.
Definition industries_deleted : gset Z :=
  match target with TIndustry k => {[k]} | _ => ∅ end.
Definition services_deleted : gset Z :=
  match target with TService k => {[k]} | _ => ∅ end.
Definition business_cycles_deleted : gset Z :=
  match target with TBusinessCycle k => {[k]} | _ => ∅ end.
Definition providers_deleted : gset Z :=
  match target with TProvider k => {[k]} | _ => ∅ end.

(** [FunctionalArea.business_cycle] cascades. *)
Definition functional_areas_deleted : gset Z :=
  match target with TFunctionalArea k => {[k]} | _ => ∅ end
  ∪ keys_where (λ a, FunctionalArea.business_cycle a ∈ business_cycles_deleted)
               (functional_areas db).

(** [GeneratedRFP.user] and [GeneratedRFP.industry] cascade. *)
Definition generated_rfps_deleted : gset Z :=
  match target with TGeneratedRFP k => {[k]} | _ => ∅ end
  ∪ keys_where (λ p, GeneratedRFP.user p ∈ users_deleted
                     ∨ GeneratedRFP.industry p ∈ industries_deleted)
               (generated_rfps db).

(** The [generated_rfp] key of the three join tables cascades. *)
Definition rfp_services_deleted : gset Z :=
  match target with TRfpService k => {[k]} | _ => ∅ end
  ∪ keys_where (λ j, refs (ProjectGeneratedRFPService.generated_rfp j)
                          generated_rfps_deleted)
               (rfp_services db).
Definition rfp_business_cycles_deleted : gset Z :=
  match target with TRfpBusinessCycle k => {[k]} | _ => ∅ end
  ∪ keys_where (λ j, ProjectGeneratedRFPBusinessCycle.generated_rfp j
                     ∈ generated_rfps_deleted)
               (rfp_business_cycles db).
Definition rfp_areas_deleted : gset Z :=
  match target with TRfpArea k => {[k]} | _ => ∅ end
  ∪ keys_where (λ j, ProjectGeneratedRFPArea.generated_rfp j
                     ∈ generated_rfps_deleted)
               (rfp_areas db).

Definition submitted_rfps_deleted : gset Z :=
  keys_where (λ s, refs (SubmittedRFP.rfp s) generated_rfps_deleted
                   ∨ refs (SubmittedRFP.user s) users_deleted)
             (submitted_rfps db).
Definition response_rfps_deleted : gset Z :=
  keys_where (λ r, ResponseRFP.provider r ∈ providers_deleted
                   ∨ ResponseRFP.rfp r ∈ generated_rfps_deleted
                   ∨ ResponseRFP.user r ∈ users_deleted
                   ∨ ResponseRFP.submitted_rfp r ∈ submitted_rfps_deleted)
             (response_rfps db).
Definition fa_sessions_deleted : gset Z :=
  keys_where (λ s, ProjectFunctionalAreaSession.user s ∈ users_deleted
                   ∨ ProjectFunctionalAreaSession.functional_area s
                     ∈ functional_areas_deleted)
             (fa_sessions db).

(** *** [on_delete=PROTECT]: a join row that points at a collected
    service, business cycle or functional area stops the deletion. *)
Definition protected_by : option string :=
  if decide (map_Exists
       (λ _ j, refs (ProjectGeneratedRFPService.service j) services_deleted)
       (rfp_services db))
  then Some "ProjectGeneratedRFPService.service"
  else if decide (map_Exists
       (λ _ j, ProjectGeneratedRFPBusinessCycle.business_cycle j
               ∈ business_cycles_deleted)
       (rfp_business_cycles db))
  then Some "ProjectGeneratedRFPBusinessCycle.business_cycle"
  else if decide (map_Exists
       (λ _ j, ProjectGeneratedRFPArea.area j ∈ functional_areas_deleted)
       (rfp_areas db))
  then Some "ProjectGeneratedRFPArea.area"
  else None.

(** *** [on_delete=SET_NULL] *)

(** [TenantOwnedMixin.user] *)
Definition clear_creator {M} `{TenantOwnedMixin M} (r : M) : M :=
  if decide (refs (user r) users_deleted) then set_user None r else r.

(** [FinalizedRFP.source_rfp] *)
Definition clear_source (f : FinalizedRFP.t) : FinalizedRFP.t :=
  if decide (refs (FinalizedRFP.source_rfp f) generated_rfps_deleted)
  then FinalizedRFP.mk None (FinalizedRFP.organization f)
         (FinalizedRFP.status f) (FinalizedRFP.start_date f)
         (FinalizedRFP.end_date f) (FinalizedRFP.snapshot_data f)
  else f.

(** The rows of [GeneratedRFP.allowed_users] that point at a deleted user
    go with the user. *)
Definition forget_users (p : GeneratedRFP.t) : GeneratedRFP.t :=
  GeneratedRFP.mk (GeneratedRFP.status p) (GeneratedRFP.start_date p)
    (GeneratedRFP.end_date p) (GeneratedRFP.rfp_name p)
    (GeneratedRFP.rfp_description p) (GeneratedRFP.company_url p)
    (GeneratedRFP.value_propositions p) (GeneratedRFP.organization p)
    (GeneratedRFP.user p) (GeneratedRFP.allowed_users p ∖ users_deleted)
    (GeneratedRFP.industry p) (GeneratedRFP.questionnaires p)
    (GeneratedRFP.descriptions p).

(** The database once the collected rows are gone. *)
Definition after_delete : Database := {|
  industries := without_keys industries_deleted (clear_creator <$> industries db);
  services := without_keys services_deleted (clear_creator <$> services db);
  business_cycles :=
    without_keys business_cycles_deleted (clear_creator <$> business_cycles db);
  functional_areas :=
    without_keys functional_areas_deleted (clear_creator <$> functional_areas db);
  providers := without_keys providers_deleted (clear_creator <$> providers db);
  generated_rfps :=
    without_keys generated_rfps_deleted (forget_users <$> generated_rfps db);
  rfp_services := without_keys rfp_services_deleted (rfp_services db);
  rfp_business_cycles :=
    without_keys rfp_business_cycles_deleted (rfp_business_cycles db);
  rfp_areas := without_keys rfp_areas_deleted (rfp_areas db);
  submitted_rfps := without_keys submitted_rfps_deleted (submitted_rfps db);
  finalized_rfps := clear_source <$> finalized_rfps db;
  response_rfps := without_keys response_rfps_deleted (response_rfps db);
  fa_sessions := without_keys fa_sessions_deleted (fa_sessions db);
|}.

(** [obj.delete()]: either the whole deletion happens or none of it. *)
Definition delete_row : Result Database :=
  match protected_by with
  | Some reference => inl (ProtectedError reference)
  | None => inr after_delete
  end.
End Collector.

(** ** Changing a proposal *)

(** An assignment to a content column of a stored proposal.  The columns
    with a [max_length] are left out: what becomes of a longer value is
    decided by the database in use. *)
Inductive Assignment :=
  | SetRfpDescription (v : string)                (* rfp_description=v *)
  | SetIndustry (i : Z)                           (* industry_id=i *)
  | SetQuestionnaires (v : Json)                  (* questionnaires=v *)
  | SetDescriptions (v : Json).                   (* descriptions=v *)

Definition assign (a : Assignment) (r : GeneratedRFP.t) : GeneratedRFP.t :=
  let industry := match a with SetIndustry i => i | _ => GeneratedRFP.industry r end in
  let rfp_description :=
    match a with SetRfpDescription v => v | _ => GeneratedRFP.rfp_description r end in
  let questionnaires :=
    match a with SetQuestionnaires v => v | _ => GeneratedRFP.questionnaires r end in
  let descriptions :=
    match a with SetDescriptions v => v | _ => GeneratedRFP.descriptions r end in
  GeneratedRFP.mk (GeneratedRFP.status r) (GeneratedRFP.start_date r)
    (GeneratedRFP.end_date r) (GeneratedRFP.rfp_name r) rfp_description
    (GeneratedRFP.company_url r) (GeneratedRFP.value_propositions r)
    (GeneratedRFP.organization r) (GeneratedRFP.user r)
    (GeneratedRFP.allowed_users r) industry questionnaires descriptions.

(** The column whose constraint refuses the assignment: [industry] is a
    foreign key and needs a stored industry; the two [JSONField]s are not
    nullable, and Python's [None] is written as SQL NULL. *)
Definition refused (a : Assignment) (db : Database) : option string :=
  match a with
  | SetRfpDescription _ => None
  | SetIndustry i =>
      if decide (i ∈ dom (industries db)) then None else Some "industry_id"
  | SetQuestionnaires v =>
      match v with JNull => Some "questionnaires" | _ => None end
  | SetDescriptions v =>
      match v with JNull => Some "descriptions" | _ => None end
  end.

(** What a caller can do to the [GeneratedRFP] with primary key [p]
    through the ORM. *)
Inductive Mutation :=
  | AddService (s : Z)                            (* rfp.services.add(s) *)
  | RemoveService (s : Z)                         (* rfp.services.remove(s) *)
  | AddBusinessCycle (b : Z)                      (* rfp.business_cycles.add(b) *)
  | RemoveBusinessCycle (b : Z)                   (* rfp.business_cycles.remove(b) *)
  | AddArea (a : Z) (priority : ProjectGeneratedRFPArea.Priority)
                                                  (* ProjectGeneratedRFPArea.objects.create *)
  | RemoveArea (a : Z)                            (* rfp.areas.remove(a) *)
  | Update (a : Assignment)     (* GeneratedRFP.objects.filter(pk=p).update *)
  | Delete.                                       (* rfp.delete() *)

(** [add] looks for the join row first and inserts one only when there is
    none; [create] inserts at once, so that a second row for the same
    functional area meets [unique_rfp_area].  An inserted join row has two
    foreign keys, and the database refuses it with an [IntegrityError] when
    the proposal or the row it is joined to is not stored.  The name of a
    foreign-key constraint is generated when the table is made; the error
    names the column instead.  [update] changes the stored row, if there is
    one. *)
Definition mutate (p : Z) (m : Mutation) (db : Database) : Result Database :=
  match m with
  | AddService s =>
      if decide (map_Exists
           (λ _ j, ProjectGeneratedRFPService.generated_rfp j = Some p
                   ∧ ProjectGeneratedRFPService.service j = Some s)
           (rfp_services db))
      then inr db
      else if decide (p ∉ dom (generated_rfps db))
      then inl (IntegrityError "generated_rfp_id")
      else if decide (s ∉ dom (services db))
      then inl (IntegrityError "service_id")
      else inr (set_rfp_services
                  (<[next_pk (rfp_services db) :=
                       ProjectGeneratedRFPService.mk (Some p) (Some s)]>
                     (rfp_services db)) db)
  | RemoveService s =>
      inr (set_rfp_services
             (filter (λ kv, ¬ (ProjectGeneratedRFPService.generated_rfp kv.2 = Some p
                               ∧ ProjectGeneratedRFPService.service kv.2 = Some s))
                     (rfp_services db)) db)
  | AddBusinessCycle b =>
      if decide (map_Exists
           (λ _ j, ProjectGeneratedRFPBusinessCycle.generated_rfp j = p
                   ∧ ProjectGeneratedRFPBusinessCycle.business_cycle j = b)
           (rfp_business_cycles db))
      then inr db
      else if decide (p ∉ dom (generated_rfps db))
      then inl (IntegrityError "generated_rfp_id")
      else if decide (b ∉ dom (business_cycles db))
      then inl (IntegrityError "business_cycle_id")
      else inr (set_rfp_business_cycles
                  (<[next_pk (rfp_business_cycles db) :=
                       ProjectGeneratedRFPBusinessCycle.mk p b]>
                     (rfp_business_cycles db)) db)
  | RemoveBusinessCycle b =>
      inr (set_rfp_business_cycles
             (filter (λ kv, ¬ (ProjectGeneratedRFPBusinessCycle.generated_rfp kv.2 = p
                               ∧ ProjectGeneratedRFPBusinessCycle.business_cycle kv.2 = b))
                     (rfp_business_cycles db)) db)
  | AddArea a priority =>
      if decide (map_Exists
           (λ _ j, ProjectGeneratedRFPArea.generated_rfp j = p
                   ∧ ProjectGeneratedRFPArea.area j = a) (rfp_areas db))
      then inl (IntegrityError "unique_rfp_area")
      else if decide (p ∉ dom (generated_rfps db))
      then inl (IntegrityError "generated_rfp_id")
      else if decide (a ∉ dom (functional_areas db))
      then inl (IntegrityError "functional_area_id")
      else inr (set_rfp_areas
                  (<[next_pk (rfp_areas db) :=
                       ProjectGeneratedRFPArea.mk p a priority]> (rfp_areas db)) db)
  | RemoveArea a =>
      inr (set_rfp_areas
             (filter (λ kv, ¬ (ProjectGeneratedRFPArea.generated_rfp kv.2 = p
                               ∧ ProjectGeneratedRFPArea.area kv.2 = a))
                     (rfp_areas db)) db)
  | Update a =>
      match generated_rfps db !! p with
      | None => inr db
      | Some r =>
          match refused a db with
          | Some column => inl (IntegrityError column)
          | None =>
              inr (set_generated_rfps (<[p := assign a r]> (generated_rfps db)) db)
          end
      end
  | Delete => delete_row db (TGeneratedRFP p)
  end.

(** A sequence of changes, stopped by the first one that fails. *)
Fixpoint mutate_all (p : Z) (ms : list Mutation) (db : Database) : Result Database :=
  match ms with
  | [] => inr db
  | m :: ms =>
      match mutate p m db with
      | inl e => inl e
      | inr db' => mutate_all p ms db'
      end
  end.

(** ** Finalizing a proposal *)

Inductive FinalizeError :=
  | DoesNotExist
  | MissingOwnerError.

(** The members of a proposal in its three join tables. *)
Definition services_of (p : Z) (db : Database) : list Z :=
  omap (λ kv, if decide (ProjectGeneratedRFPService.generated_rfp kv.2 = Some p)
              then ProjectGeneratedRFPService.service kv.2 else None)
       (map_to_list (rfp_services db)).

Definition business_cycles_of (p : Z) (db : Database) : list Z :=
  omap (λ kv, if decide (ProjectGeneratedRFPBusinessCycle.generated_rfp kv.2 = p)
              then Some (ProjectGeneratedRFPBusinessCycle.business_cycle kv.2)
              else None)
       (map_to_list (rfp_business_cycles db)).

Definition areas_of (p : Z) (db : Database)
    : list (Z * ProjectGeneratedRFPArea.Priority) :=
  omap (λ kv, if decide (ProjectGeneratedRFPArea.generated_rfp kv.2 = p)
              then Some (ProjectGeneratedRFPArea.area kv.2,
                         ProjectGeneratedRFPArea.priority kv.2)
              else None)
       (map_to_list (rfp_areas db)).

(** Modelled from the spec: the document that holds the content of a
    proposal.  project/models.py declares [FinalizedRFP.snapshot_data] and
    reads its ['rfp_name'] member, the code that fills it is not in the two
    modules.  The members follow the field shape the spec lists: industry
    id, service id list, business-cycle id list, area-priority pairs,
    questionnaire entries, description entries. *)
Definition snapshot_of (p : Z) (r : GeneratedRFP.t) (db : Database) : Json :=
  JObj [
    ("rfp_name", JStr (GeneratedRFP.rfp_name r));
    ("rfp_description", JStr (GeneratedRFP.rfp_description r));
    ("company_url", JStr (GeneratedRFP.company_url r));
    ("value_propositions", JStr (GeneratedRFP.value_propositions r));
    ("industry", JNum (GeneratedRFP.industry r));
    ("services", JArr (JNum <$> services_of p db));
    ("business_cycles", JArr (JNum <$> business_cycles_of p db));
    ("areas",
     JArr ((λ ap, JArr [JNum ap.1; JStr (ProjectGeneratedRFPArea.value ap.2)])
           <$> areas_of p db));
    ("questionnaires", GeneratedRFP.questionnaires r);
    ("descriptions", GeneratedRFP.descriptions r)
  ].

(** Modelled from the spec: [finalize(generatedRFP)], the operation of the
    SnapshotFinalizer, which is not in the two modules.  It fails with
    [MissingOwnerError] for a proposal without organization; otherwise it
    inserts one new [FinalizedRFP] whose [organization] and [source_rfp]
    point at the originals and whose [snapshot_data] is the content of the
    proposal; the result is the key of the new row and the new database. *)
Definition finalize (p : Z) (db : Database) : FinalizeError + (Z * Database) :=
  match generated_rfps db !! p with
  | None => inl DoesNotExist
  | Some r =>
      match GeneratedRFP.organization r with
      | None => inl MissingOwnerError
      | Some o =>
          let pk := next_pk (finalized_rfps db) in
          inr (pk,
               set_finalized_rfps
                 (<[pk := FinalizedRFP.mk (Some p) o "finalized"
                            (GeneratedRFP.start_date r) (GeneratedRFP.end_date r)
                            (snapshot_of p r db)]> (finalized_rfps db)) db)
      end
  end.

(** The snapshot stored under key [f]. *)
Definition snapshot (f : Z) (db : Database) : option Json :=
  FinalizedRFP.snapshot_data <$> finalized_rfps db !! f.

(** ** A small database for the examples

    Tenant 1 has a private service; the industry, the business cycle and its
    functional area are global.  User 1 created all of them and owns
    proposal 100, which is joined to the service, the business cycle and
    the functional area. *)
Module Sample.
Definition retail : Industry.t :=
  Industry.mk None (Some 1) ∅ "Retail" "" "".
Definition audit (org : option Z) : Service.t :=
  Service.mk org (Some 1) "Audit" "Yearly audit".
Definition procure_to_pay : BusinessCycle.t :=
  BusinessCycle.mk None (Some 1) 1 "Procure to pay" "".
Definition invoicing : FunctionalArea.t :=
  FunctionalArea.mk None (Some 1) 1 1 "Invoicing" "Supplier invoices".
Definition proposal : GeneratedRFP.t :=
  GeneratedRFP.mk "in-progress" (Some 739000) None "ERP renewal"
    "Replacement of the finance system" "" "system" (Some 1) 1 ∅ 1
    (JArr [JStr "How many users?"]) (JArr []).

Definition db : Database := {|
  industries := {[1 := retail]};
  services := {[1 := audit (Some 1)]};
  business_cycles := {[1 := procure_to_pay]};
  functional_areas := {[10 := invoicing]};
  providers := ∅;
  generated_rfps := {[100 := proposal]};
  rfp_services := {[1 := ProjectGeneratedRFPService.mk (Some 100) (Some 1)]};
  rfp_business_cycles := {[1 := ProjectGeneratedRFPBusinessCycle.mk 100 1]};
  rfp_areas :=
    {[1 := ProjectGeneratedRFPArea.mk 100 10 ProjectGeneratedRFPArea.HIGH]};
  submitted_rfps := ∅;
  finalized_rfps := ∅;
  response_rfps := ∅;
  fa_sessions := ∅;
|}.

(** The same database once the three join rows of the proposal are
    removed. *)
Definition unjoined : Database :=
  set_rfp_areas ∅ (set_rfp_business_cycles ∅ (set_rfp_services ∅ db)).

(** A second service of tenant 1 and a second functional area of the
    business cycle. *)
Definition tax : Service.t :=
  Service.mk (Some 1) (Some 1) "Tax" "Tax advice".
Definition payments : FunctionalArea.t :=
  FunctionalArea.mk None (Some 1) 1 2 "Payments" "Outgoing payments".

(** [db] with the two of them stored under keys 2 and 11; the proposal is
    joined to neither. *)
Definition stocked : Database := {|
  industries := industries db;
  services := {[1 := audit (Some 1); 2 := tax]};
  business_cycles := business_cycles db;
  functional_areas := {[10 := invoicing; 11 := payments]};
  providers := providers db;
  generated_rfps := generated_rfps db;
  rfp_services := rfp_services db;
  rfp_business_cycles := rfp_business_cycles db;
  rfp_areas := rfp_areas db;
  submitted_rfps := submitted_rfps db;
  finalized_rfps := finalized_rfps db;
  response_rfps := response_rfps db;
  fa_sessions := fa_sessions db;
|}.
End Sample.

End Project.

(* ===================================================================== *)
(** * authentication/models.py, the remaining models                      *)
(* ===================================================================== *)
Module Accounts.

(** ** Invite *)
Module Invite.
Record t := mk {
  inviter : Z;                   (* on_delete=CASCADE *)
  email : string;
  hashed_token : string;
  is_active : bool;
  expires_at : Z;
}.

(** [is_valid]; [now] is the value of [timezone.now()].  Instants are
    integers, ordered as the aware datetimes they stand for. *)
Definition is_valid (now : Z) (self : t) : bool :=
  is_active self && bool_decide (expires_at self > now).

(** The stored row of an invite and the Python object in hand. *)
Record World := mkWorld {
  stored : t;
  self : t;
}.

(** [Invite.objects.get(pk=...)] *)
Definition load (row : t) : World := mkWorld row row.

(** [self.save(update_fields=["is_active"])]: of the columns of the model
    only [is_active] is written. *)
Definition save_is_active (w : World) : World :=
  mkWorld (mk (inviter (stored w)) (email (stored w)) (hashed_token (stored w))
              (is_active (self w)) (expires_at (stored w)))
          (self w).

(** [deactivate] *)
Definition deactivate (w : World) : World :=
  save_is_active
    (mkWorld (stored w)
             (mk (inviter (self w)) (email (self w)) (hashed_token (self w))
                 false (expires_at (self w)))).
End Invite.

(** ** UserBusinessCycleAssignment *)
Module UserBusinessCycleAssignment.
Record t := mk {
  user : option Z;               (* on_delete=CASCADE, null=True *)
  organization : option Z;       (* on_delete=CASCADE, null=True *)
  business_cycle : option Z;     (* on_delete=CASCADE, null=True *)
}.

(** [UniqueConstraint(fields=['organization', 'business_cycle'])]: a new
    row conflicts with a stored row that has the same two keys; a null key
    is distinct from every value, so a row with a null key conflicts with
    nothing. *)
Definition conflicts (r : t) (table : gmap Z t) : Prop :=
  is_Some (organization r) ∧ is_Some (business_cycle r) ∧
  map_Exists (λ _ r', organization r' = organization r
                      ∧ business_cycle r' = business_cycle r) table.

#[global] Instance conflicts_dec r table : Decision (conflicts r table).
Proof. unfold conflicts. apply _. Defined.

(** [UserBusinessCycleAssignment.objects.create(...)] *)
Definition create (r : t) (table : gmap Z t) : Project.DbError + gmap Z t :=
  if decide (conflicts r table)
  then inl (Project.IntegrityError "unique_org_business_cycle_assignment")
  else inr (<[Project.next_pk table := r]> table).

(** What the docstring of the model promises: within an organization a
    business cycle is assigned in at most one row. *)
Definition single_assignment (table : gmap Z t) : Prop :=
  ∀ k1 k2 r1 r2,
    table !! k1 = Some r1 → table !! k2 = Some r2 →
    is_Some (organization r1) → is_Some (business_cycle r1) →
    organization r1 = organization r2 →
    business_cycle r1 = business_cycle r2 →
    k1 = k2.
End UserBusinessCycleAssignment.

End Accounts.

(* ===================================================================== *)
(** * Invariants of the tables of project/models.py                       *)
(* ===================================================================== *)
Module Integrity.
Import Project.

(** The unique constraint of a catalogue table, as a property of the
    table: within one tenant a natural key occurs in at most one row. *)
Definition tenant_unique {M} `{TenantOwnedMixin M} `{UniqueTenantName M}
    (t : gmap Z M) : Prop :=
  ∀ k1 k2 r1 r2,
    t !! k1 = Some r1 → t !! k2 = Some r2 →
    is_Some (organization r1) →
    organization r1 = organization r2 →
    natural_key r1 = natural_key r2 →
    k1 = k2.

(** The unique constraints of the three join tables, [unique_rfp_service],
    [unique_rfp_business_cycle] and [unique_rfp_area], as a property of the
    database.  In the service join both keys are nullable and a null key
    is distinct from every value. *)
Record joins_unique (db : Database) : Prop := {
  unique_rfp_service : ∀ j1 j2 r1 r2,
    rfp_services db !! j1 = Some r1 → rfp_services db !! j2 = Some r2 →
    is_Some (ProjectGeneratedRFPService.generated_rfp r1) →
    is_Some (ProjectGeneratedRFPService.service r1) →
    ProjectGeneratedRFPService.generated_rfp r1
    = ProjectGeneratedRFPService.generated_rfp r2 →
    ProjectGeneratedRFPService.service r1
    = ProjectGeneratedRFPService.service r2 →
    j1 = j2;
  unique_rfp_business_cycle : ∀ j1 j2 r1 r2,
    rfp_business_cycles db !! j1 = Some r1 →
    rfp_business_cycles db !! j2 = Some r2 →
    ProjectGeneratedRFPBusinessCycle.generated_rfp r1
    = ProjectGeneratedRFPBusinessCycle.generated_rfp r2 →
    ProjectGeneratedRFPBusinessCycle.business_cycle r1
    = ProjectGeneratedRFPBusinessCycle.business_cycle r2 →
    j1 = j2;
  unique_rfp_area : ∀ j1 j2 r1 r2,
    rfp_areas db !! j1 = Some r1 → rfp_areas db !! j2 = Some r2 →
    ProjectGeneratedRFPArea.generated_rfp r1
    = ProjectGeneratedRFPArea.generated_rfp r2 →
    ProjectGeneratedRFPArea.area r1 = ProjectGeneratedRFPArea.area r2 →
    j1 = j2;
}.

(** A nullable foreign key is null or the key of a stored row. *)
Definition points_into {A} (fk : option Z) (t : gmap Z A) : Prop :=
  match fk with
  | Some k => is_Some (t !! k)
  | None => True
  end.

(** Referential integrity of the foreign keys between the tables of the
    database: each one is null or the key of a stored row. *)
Record consistent (db : Database) : Prop := {
  area_cycle : ∀ k a, functional_areas db !! k = Some a →
    is_Some (business_cycles db !! FunctionalArea.business_cycle a);
  rfp_industry : ∀ k p, generated_rfps db !! k = Some p →
    is_Some (industries db !! GeneratedRFP.industry p);
  service_join_rfp : ∀ j r, rfp_services db !! j = Some r →
    points_into (ProjectGeneratedRFPService.generated_rfp r) (generated_rfps db);
  service_join_service : ∀ j r, rfp_services db !! j = Some r →
    points_into (ProjectGeneratedRFPService.service r) (services db);
  cycle_join_rfp : ∀ j r, rfp_business_cycles db !! j = Some r →
    is_Some (generated_rfps db !! ProjectGeneratedRFPBusinessCycle.generated_rfp r);
  cycle_join_cycle : ∀ j r, rfp_business_cycles db !! j = Some r →
    is_Some (business_cycles db
             !! ProjectGeneratedRFPBusinessCycle.business_cycle r);
  area_join_rfp : ∀ j r, rfp_areas db !! j = Some r →
    is_Some (generated_rfps db !! ProjectGeneratedRFPArea.generated_rfp r);
  area_join_area : ∀ j r, rfp_areas db !! j = Some r →
    is_Some (functional_areas db !! ProjectGeneratedRFPArea.area r);
  submitted_rfp : ∀ k s, submitted_rfps db !! k = Some s →
    points_into (SubmittedRFP.rfp s) (generated_rfps db);
  finalized_source : ∀ k f, finalized_rfps db !! k = Some f →
    points_into (FinalizedRFP.source_rfp f) (generated_rfps db);
  response_provider : ∀ k r, response_rfps db !! k = Some r →
    is_Some (providers db !! ResponseRFP.provider r);
  response_rfp : ∀ k r, response_rfps db !! k = Some r →
    is_Some (generated_rfps db !! ResponseRFP.rfp r);
  response_submitted : ∀ k r, response_rfps db !! k = Some r →
    is_Some (submitted_rfps db !! ResponseRFP.submitted_rfp r);
  session_area : ∀ k s, fa_sessions db !! k = Some s →
    is_Some (functional_areas db
             !! ProjectFunctionalAreaSession.functional_area s);
}.

(** No row of the database refers to user [u]. *)
Record unreferenced (u : Z) (db : Database) : Prop := {
  no_industry : ∀ k r, industries db !! k = Some r → Industry.user r ≠ Some u;
  no_service : ∀ k r, services db !! k = Some r → Service.user r ≠ Some u;
  no_cycle : ∀ k r, business_cycles db !! k = Some r →
    BusinessCycle.user r ≠ Some u;
  no_area : ∀ k r, functional_areas db !! k = Some r →
    FunctionalArea.user r ≠ Some u;
  no_provider : ∀ k r, providers db !! k = Some r → Provider.user r ≠ Some u;
  no_rfp : ∀ k r, generated_rfps db !! k = Some r →
    GeneratedRFP.user r ≠ u ∧ u ∉ GeneratedRFP.allowed_users r;
  no_submitted : ∀ k r, submitted_rfps db !! k = Some r →
    SubmittedRFP.user r ≠ Some u;
  no_response : ∀ k r, response_rfps db !! k = Some r → ResponseRFP.user r ≠ u;
  no_session : ∀ k r, fa_sessions db !! k = Some r →
    ProjectFunctionalAreaSession.user r ≠ u;
}.
End Integrity.

(* ===================================================================== *)
(** * The role / groups synchronisation                                 *)
(* ===================================================================== *)
Section AuthFacts.
Import Auth.

Lemma first_by_pk_None (s : gset Z) : first_by_pk s = None ↔ s = ∅.
Proof.
  unfold first_by_pk. rewrite head_None. split.
  - intros E.
    pose proof (merge_sort_Permutation Z.le (elements s)) as P.
    rewrite E in P. symmetry in P. apply Permutation_nil_r in P.
    apply elements_empty_iff in P. by apply leibniz_equiv.
  - intros ->. reflexivity.
Qed.

Lemma first_by_pk_elem (s : gset Z) x : first_by_pk s = Some x → x ∈ s.
Proof.
  unfold first_by_pk. intros E. apply elem_of_elements.
  rewrite <- (merge_sort_Permutation Z.le (elements s)).
  destruct (merge_sort Z.le (elements s)); simplify_eq/=. left.
Qed.

Lemma first_by_pk_least (s : gset Z) x y :
  first_by_pk s = Some x → y ∈ s → x ≤ y.
Proof.
  unfold first_by_pk. intros E Hy.
  apply elem_of_elements in Hy.
  rewrite <- (merge_sort_Permutation Z.le (elements s)) in Hy.
  pose proof (StronglySorted_merge_sort Z.le (elements s)) as S.
  destruct (merge_sort Z.le (elements s)) as [|z l]; simplify_eq/=.
  apply StronglySorted_inv in S as [_ S].
  apply elem_of_cons in Hy as [->|Hy]; [lia|].
  rewrite Forall_forall in S. by apply S.
Qed.

(** ** Dispatch *)

Section Dispatching.
Context (set_iter : gset Z → list Z).

Lemma sync_groups_stored_groups a ps w :
  groups (stored (_sync_groups_to_role set_iter a ps w)) = groups (stored w).
Proof. unfold _sync_groups_to_role. by repeat case_match. Qed.

Lemma sync_groups_instance a ps w :
  instance (_sync_groups_to_role set_iter a ps w) = instance w.
Proof. unfold _sync_groups_to_role. by repeat case_match. Qed.

(** The role the receiver settles on. *)
Let chosen (ps : option (gset Z)) (w : World) : option Z :=
  if truthy ps then head (set_iter (default ∅ ps))
  else first_by_pk (groups (stored w)).

Lemma sync_groups_pre a ps w :
  a ∈ [pre_add; pre_remove; pre_clear] →
  _sync_groups_to_role set_iter a ps w = w.
Proof.
  intros Ha. repeat (apply elem_of_cons in Ha as [-> | Ha]; [done|]).
  by apply elem_of_nil in Ha.
Qed.

Lemma sync_groups_post_in_step a ps w :
  a ∈ [post_add; post_remove; post_clear] →
  role_id (instance w) = role (stored w) →
  stored (_sync_groups_to_role set_iter a ps w)
  = mkStored (chosen ps w) (groups (stored w)).
Proof.
  intros Ha Hsync. unfold _sync_groups_to_role.
  rewrite bool_decide_true by done. fold (chosen ps w).
  case_bool_decide as Hne; [done|].
  rewrite <- Hne, Hsync. by destruct (stored w).
Qed.

Lemma send_m2m_changed n a ps w :
  send set_iter (S n) (m2m_changed a ps) w
  = Some (_sync_groups_to_role set_iter a ps w).
Proof. reflexivity. Qed.

Lemma send_pre_save n w :
  send set_iter (S n) pre_save w = Some (_remember_desired_role w).
Proof. reflexivity. Qed.

Lemma send_post_save n w :
  send set_iter (S n) post_save w
  = _sync_role_to_groups set_iter (send set_iter n) w.
Proof. reflexivity. Qed.

Lemma save_unfold n w :
  save set_iter (S n) w
  = _sync_role_to_groups set_iter (send set_iter n)
      (write_row (_remember_desired_role w)).
Proof. reflexivity. Qed.

Lemma groups_add_fuel n objs w :
  groups_add (send set_iter (S n)) objs w = groups_add (send set_iter 1) objs w.
Proof. by destruct objs. Qed.

Lemma groups_remove_fuel n objs w :
  groups_remove (send set_iter (S n)) objs w
  = groups_remove (send set_iter 1) objs w.
Proof. by destruct objs. Qed.

Lemma groups_clear_fuel n w :
  groups_clear (send set_iter (S n)) w = groups_clear (send set_iter 1) w.
Proof. reflexivity. Qed.

Lemma groups_set_fuel n objs w :
  groups_set set_iter (send set_iter (S n)) objs w
  = groups_set set_iter (send set_iter 1) objs w.
Proof.
  unfold groups_set. destruct (split_objs _ _) as [old_ids new_objs].
  rewrite groups_remove_fuel.
  destruct (groups_remove _ _ _); simpl; [apply groups_add_fuel | done].
Qed.

Lemma groups_add_returns n objs w : is_Some (groups_add (send set_iter (S n)) objs w).
Proof. destruct objs; simpl; eauto. Qed.

Lemma groups_remove_returns n objs w :
  is_Some (groups_remove (send set_iter (S n)) objs w).
Proof. destruct objs; simpl; eauto. Qed.

Lemma groups_clear_returns n w : is_Some (groups_clear (send set_iter (S n)) w).
Proof. simpl; eauto. Qed.

Lemma groups_set_returns n objs w :
  is_Some (groups_set set_iter (send set_iter (S n)) objs w).
Proof.
  unfold groups_set. destruct (split_objs _ _) as [old_ids new_objs].
  destruct (groups_remove_returns n (set_iter old_ids) w) as [w1 ->].
  apply groups_add_returns.
Qed.

Lemma save_returns n w : is_Some (save set_iter (S (S n)) w).
Proof.
  rewrite save_unfold. unfold _sync_role_to_groups.
  destruct (default None _) as [rid|]; [|eauto].
  match goal with |- context [groups_set _ _ ?o ?w] =>
    destruct (groups_set_returns n o w) as [w1 ->] end.
  simpl; eauto.
Qed.

Lemma exec_returns n op w : is_Some (exec set_iter (S (S n)) op w).
Proof.
  destruct op; unfold exec.
  - apply save_returns.
  - apply groups_add_returns.
  - apply groups_remove_returns.
  - apply groups_set_returns.
  - apply groups_clear_returns.
Qed.

Lemma exec_fuel n op w : exec set_iter (S (S n)) op w = exec set_iter 2 op w.
Proof.
  destruct op; unfold exec.
  - rewrite !save_unfold. unfold _sync_role_to_groups.
    destruct (default None _); [|done]. by rewrite groups_set_fuel.
  - by rewrite (groups_add_fuel (S n)), (groups_add_fuel 1).
  - by rewrite (groups_remove_fuel (S n)), (groups_remove_fuel 1).
  - by rewrite (groups_set_fuel (S n)), (groups_set_fuel 1).
  - done.
Qed.

(** Saving a null role: the row is written, the groups are left as
    they were. *)
Lemma save_null_role n w :
  exec set_iter (S n) (SetRole None) w
  = Some (mkWorld (mkStored None (groups (stored w)))
                  (mkInstance None (Some None))).
Proof. reflexivity. Qed.

(** X7. Clearing the groups through an object whose [role_id] is the stored
    role leaves a null role. *)
Lemma clear_groups_in_step n w :
  role_id (instance w) = role (stored w) →
  ∃ w', exec set_iter (S n) ClearGroups w = Some w'
        ∧ stored w' = mkStored None ∅.
Proof.
  intros Hsync. unfold exec, groups_clear.
  rewrite !send_m2m_changed. cbn [mbind option_bind].
  rewrite send_m2m_changed. eexists; split; [reflexivity|].
  rewrite (sync_groups_pre pre_clear) by compute_done.
  rewrite sync_groups_post_in_step by (done || compute_done).
  reflexivity.
Qed.

(** *** With an iteration order that enumerates the set *)
Section Iteration.
Hypothesis set_iter_elem : ∀ s x, x ∈ set_iter s ↔ x ∈ s.

Lemma list_to_set_iter s : list_to_set (set_iter s) =@{gset Z} s.
Proof. apply set_eq. intros x. by rewrite elem_of_list_to_set. Qed.

Lemma set_iter_nil s : set_iter s = [] → s = ∅.
Proof.
  intros E. apply set_eq. intros x. rewrite <- set_iter_elem, E.
  clear. set_solver.
Qed.

Lemma head_set_iter s x : head (set_iter s) = Some x → x ∈ s.
Proof.
  intros E. apply set_iter_elem.
  destruct (set_iter s); simplify_eq/=. left.
Qed.

Lemma groups_remove_groups n objs w w' :
  groups_remove (send set_iter (S n)) objs w = Some w' →
  groups (stored w') = groups (stored w) ∖ list_to_set objs.
Proof.
  destruct objs as [|o objs].
  - intros [= <-]. clear. set_solver.
  - unfold groups_remove. rewrite !send_m2m_changed.
    cbn [mbind option_bind]. rewrite send_m2m_changed.
    intros [= <-]. by rewrite !sync_groups_stored_groups.
Qed.

Lemma groups_add_groups n objs w w' :
  groups_add (send set_iter (S n)) objs w = Some w' →
  groups (stored w') = groups (stored w) ∪ list_to_set objs.
Proof.
  destruct objs as [|o objs].
  - intros [= <-]. clear. set_solver.
  - unfold groups_add. rewrite !send_m2m_changed.
    cbn [mbind option_bind]. rewrite send_m2m_changed.
    intros [= <-]. rewrite !sync_groups_stored_groups. cbn.
    rewrite ?sync_groups_stored_groups.
    apply set_eq. intros x.
    destruct (decide (x ∈ groups (stored w))); set_solver.
Qed.

Lemma split_objs_singleton (g : gset Z) r :
  split_objs g [r] = if bool_decide (r ∈ g) then (g ∖ {[r]}, []) else (g, [r]).
Proof. reflexivity. Qed.

(** Saving a role [r] replaces the stored groups by [{r}]. *)
Lemma save_role_replaces_groups n w r w' :
  r ≠ 0 →
  exec set_iter (S (S n)) (SetRole (Some r)) w = Some w' →
  groups (stored w') = {[r]}.
Proof.
  intros Hr. unfold exec. rewrite save_unfold.
  unfold _sync_role_to_groups. cbn [default id _desired_role_id instance
    _remember_desired_role write_row assign_role role_id].
  rewrite bool_decide_true by done.
  unfold groups_set. rewrite split_objs_singleton.
  cbn [stored groups].
  case_bool_decide as Hin.
  - destruct (groups_remove _ _ _) as [w1|] eqn:E1; [|done].
    apply groups_remove_groups in E1. cbn in E1.
    rewrite list_to_set_iter in E1.
    cbn. intros [= <-]. cbn. rewrite E1.
    apply set_eq. intros x.
    destruct (decide (x = r)) as [->|]; set_solver.
  - destruct (groups_remove _ _ _) as [w1|] eqn:E1; [|done].
    apply groups_remove_groups in E1. cbn in E1.
    rewrite list_to_set_iter in E1.
    cbn [mbind option_bind].
    destruct (groups_add _ _ _) as [w2|] eqn:E2; [|done].
    apply groups_add_groups in E2.
    cbn. intros [= <-]. cbn. rewrite E2, E1. set_solver.
Qed.

(** X8. Adding groups through an object whose [role_id] is the stored
    role keeps the role among the groups. *)
Lemma add_groups_in_step n objs w w' :
  role_id (instance w) = role (stored w) →
  role_in_groups (stored w) →
  exec set_iter (S n) (AddGroups objs) w = Some w' →
  role_in_groups (stored w').
Proof.
  intros Hsync Hinv. unfold exec.
  destruct objs as [|o objs]; [by intros [= <-]|].
  unfold groups_add. rewrite !send_m2m_changed.
  cbn [mbind option_bind]. rewrite send_m2m_changed.
  intros [= <-].
  rewrite (sync_groups_pre pre_add) by compute_done.
  set (missing := list_to_set (o :: objs) ∖ groups (stored w)).
  rewrite sync_groups_post_in_step by (done || compute_done).
  unfold role_in_groups, chosen, truthy.
  cbn [role groups stored with_groups default].
  case_bool_decide.
  - destruct (head _) as [x|] eqn:E; [|done].
    apply head_set_iter in E. set_solver.
  - destruct (first_by_pk _) as [x|] eqn:E; [|done].
    by apply first_by_pk_elem in E.
Qed.
End Iteration.
End Dispatching.

(** ** The claims on the synchronisation *)

(** C1 (the stored role is null or one of the stored groups after every
    exposed operation): the code breaks it.  A user with role 1 and groups
    {1, 2} satisfies the invariant; [user.groups.remove(2)] on a freshly
    loaded object makes the [post_remove] receiver take its new role from
    [pk_set], the keys that were removed, so the stored role becomes 2
    while the stored groups are {1}. *)
Theorem remove_group_leaves_role_outside_groups :
  role_in_groups (mkStored (Some 1) {[1; 2]})
  ∧ ∃ w', exec elements 2 (RemoveGroups [2]) (load (mkStored (Some 1) {[1; 2]}))
          = Some w'
        ∧ stored w' = mkStored (Some 2) {[1]}
        ∧ ¬ role_in_groups (stored w').
Proof.
  split; [compute_done|].
  eexists. split; [vm_compute; reflexivity|].
  split; [reflexivity|]. compute_done.
Qed.

(** The same invariant is lost when a role change is saved: the role goes
    from 1 to 7, the [post_remove] receiver writes the dropped group 1 back
    into the role column and the [post_add] receiver, which compares with
    the in-memory [role_id], sees nothing to do. *)
Example save_role_leaves_role_outside_groups :
  ∃ w', exec elements 2 (SetRole (Some 7)) (load (mkStored (Some 1) {[1]}))
        = Some w'
      ∧ stored w' = mkStored (Some 1) {[7]}.
Proof. eexists. split; [vm_compute; reflexivity|reflexivity]. Qed.

(** C2 (saving role R leaves groups = {R}, saving a null role leaves no
    group): the code misses the second half.  For a user with role 1 and
    groups {1}, setting the role to null and saving returns from the
    [post_save] receiver before [groups.set] is reached; the stored groups
    are still {1}. *)
Theorem save_null_role_leaves_groups :
  ∃ w', exec elements 2 (SetRole None) (load (mkStored (Some 1) {[1]}))
        = Some w'
      ∧ stored w' = mkStored None {[1]}
      ∧ groups (stored w') ≠ ∅.
Proof.
  eexists. split; [apply save_null_role|]. split; [reflexivity|].
  compute_done.
Qed.

(** C6 (a role change or a groups change is synchronised in finitely many
    steps, the receivers do not re-trigger each other without bound):
    every operation returns once receivers may nest two deep, more budget
    does not change the result, and the receiver of a groups change does
    the same whatever the dispatcher is, that is, it sends no signal. *)
Theorem sync_returns_within_two_levels
    (set_iter : gset Z → list Z) (op : Op) (w : World) (n : nat) :
  is_Some (exec set_iter (S (S n)) op w)
  ∧ exec set_iter (S (S n)) op w = exec set_iter 2 op w
  ∧ ∀ action pk_set send1 send2,
      receivers set_iter send1 (m2m_changed action pk_set) w
      = receivers set_iter send2 (m2m_changed action pk_set) w.
Proof.
  split; [apply exec_returns|]. split; [apply exec_fuel|]. reflexivity.
Qed.

(** One level is not enough for a role change: the [post_save] receiver
    calls [groups.set], which dispatches [m2m_changed]. *)
Example save_needs_two_levels :
  exec elements 1 (SetRole (Some 3)) (load (mkStored (Some 1) {[1]})) = None.
Proof. vm_compute. reflexivity. Qed.

(** C9 (after the groups are cleared the role is null): the code misses
    it when the object in hand is out of step with the row.  A user
    without role gets group 5 through [user.groups.add(5)], which stores
    role 5 but leaves [role_id] of the object null; [user.groups.clear()]
    on that object finds the new role, null, equal to [role_id] and does
    not write: the stored role is still 5, the stored groups are empty. *)
Theorem clear_groups_keeps_stale_role :
  ∃ w1 w2,
    exec elements 2 (AddGroups [5]) (load (mkStored None ∅)) = Some w1
    ∧ exec elements 2 ClearGroups w1 = Some w2
    ∧ stored w1 = mkStored (Some 5) {[5]}
    ∧ stored w2 = mkStored (Some 5) ∅.
Proof.
  do 2 eexists. split; [vm_compute; reflexivity|].
  split; [vm_compute; reflexivity|]. split; reflexivity.
Qed.
End AuthFacts.

(* ===================================================================== *)
(** * Visibility and uniqueness                                         *)
(* ===================================================================== *)
Section VisibilityFacts.
Import Project.
Context {M : Type} `{TenantOwnedMixin M}.

(** Membership in the result of [visible_to] for a tenant. *)
Lemma visible_to_org_spec (hb : option (OrgVisibilityMixin M)) (o : Z) (qs : list M) r :
  r ∈ visible_to hb (Some o) qs ↔
    r ∈ qs
    ∧ (organization r = None ∨ organization r = Some o)
    ∧ match hb with
      | Some OV => o ∉ @blocked_for M OV r
      | None => True
      end.
Proof.
  unfold visible_to, exclude_blocked_for. destruct hb as [OV|].
  - rewrite !list_elem_of_filter. tauto.
  - rewrite list_elem_of_filter. tauto.
Qed.

Lemma visible_to_none_spec (hb : option (OrgVisibilityMixin M)) (qs : list M) r :
  r ∈ visible_to hb None qs ↔
    r ∈ qs
    ∧ organization r = None
    ∧ match hb with
      | Some OV => @blocked_for M OV r ≠ ∅
      | None => True
      end.
Proof.
  unfold visible_to, exclude_blocked_for. destruct hb as [OV|].
  - rewrite !list_elem_of_filter. tauto.
  - rewrite list_elem_of_filter. tauto.
Qed.

(** The result keeps the order of the query set. *)
Lemma visible_to_sublist hb org (qs : list M) : sublist (visible_to hb org qs) qs.
Proof.
  unfold visible_to, exclude_blocked_for.
  destruct hb, org; repeat (etrans; [apply sublist_filter|]); done.
Qed.
End VisibilityFacts.

Section VisibilityClaims.
Import Project.

(** What [visible_to] returns for a tenant [o]: in the order of the query
    set, exactly the rows that are global or owned by [o] and, when the
    model has a block list, whose block list does not hold [o]; so no row
    of another tenant is returned, whatever its block list. *)
Theorem visible_to_tenant {M : Type} `{TenantOwnedMixin M}
    (has_blocked_for : option (OrgVisibilityMixin M)) (o : Z) (qs : list M) :
  (∀ r, r ∈ visible_to has_blocked_for (Some o) qs ↔
          r ∈ qs
          ∧ (organization r = None ∨ organization r = Some o)
          ∧ match has_blocked_for with
            | Some OV => o ∉ @blocked_for M OV r
            | None => True
            end)
  ∧ Forall (λ r, organization r = None ∨ organization r = Some o)
           (visible_to has_blocked_for (Some o) qs)
  ∧ sublist (visible_to has_blocked_for (Some o) qs) qs.
Proof.
  split; [intros r; apply visible_to_org_spec|].
  split; [|apply visible_to_sublist].
  apply Forall_forall. intros r Hr. by apply visible_to_org_spec in Hr as (_ & ? & _).
Qed.

(** The block list is applied to every row of the filtered query set:
    a row that blocks the viewing tenant is not returned, whoever owns
    it. *)
Lemma visible_to_drops_blocked_rows {M : Type} `{TenantOwnedMixin M}
    (OV : OrgVisibilityMixin M) (o : Z) (qs : list M) (r : M) :
  o ∈ blocked_for r → r ∉ visible_to (Some OV) (Some o) qs.
Proof. intros Hb. rewrite visible_to_org_spec. intros (_ & _ & Hn). by apply Hn. Qed.

(** C3 (a tenant sees the global rows that do not block it and all the
    rows it owns, the block list suppressing global rows only): the code
    does not keep the block list to the global rows, as its comment, the
    docstring of [OrgVisibilityMixin] and the help text of [blocked_for]
    have it.  It runs [exclude(blocked_for=org)] on the rows of the tenant
    too: the industry owned by tenant 1 whose block list holds tenant 1 is
    in the collection and is not returned to tenant 1. *)
Theorem visible_to_hides_own_blocked_row :
  let r := Industry.mk (Some 1) None {[1]} "Retail" "" "" in
  organization r = Some 1
  ∧ r ∈ [r]
  ∧ r ∉ visible_to (Some Industry_visibility) (Some 1) [r].
Proof.
  intros r. split; [reflexivity|]. split; [left|].
  rewrite visible_to_org_spec. intros (_ & _ & Hb). apply Hb.
  cbn. set_solver.
Qed.

(** C4 (without viewing organization exactly the global rows are
    returned, the block list is not looked at): the code does not skip the
    block list.  It runs [exclude(blocked_for=None)], which drops the rows
    without block-list entry: the only global industry, not blocked for
    anybody, is not returned. *)
Theorem visible_to_none_drops_unblocked_global_row :
  let r := Industry.mk None None ∅ "Retail" "" "" in
  organization r = None
  ∧ visible_to (Some Industry_visibility) None [r] = [].
Proof. split; [reflexivity|]. vm_compute. reflexivity. Qed.

(** For a model without block list the query without organization
    returns exactly the global rows. *)
Lemma visible_to_none_without_block_list {M : Type} `{TenantOwnedMixin M} (qs : list M) :
  visible_to None None qs = filter (λ r, organization r = None) qs.
Proof. reflexivity. Qed.
End VisibilityClaims.

Section UniqueFacts.
Import Project.

Lemma foldr_max_ge (l : list Z) x : x ∈ l → x ≤ foldr Z.max 0 l.
Proof.
  induction l as [|y l IH]; [by intros ?%elem_of_nil|].
  intros [->|Hx]%elem_of_cons; cbn; [lia|]. specialize (IH Hx). lia.
Qed.

Lemma next_pk_fresh {A} (t : gmap Z A) : t !! next_pk t = None.
Proof.
  apply not_elem_of_dom. intros Hin.
  apply elem_of_elements, foldr_max_ge in Hin. unfold next_pk in Hin. lia.
Qed.

Context {M : Type} `{TenantOwnedMixin M} `{UniqueTenantName M}.

(** [create] succeeds exactly when nothing conflicts. *)
Lemma create_inr (r : M) (t t' : gmap Z M) :
  create r t = inr t' ↔ ¬ conflicts r t ∧ t' = <[next_pk t := r]> t.
Proof. unfold create. case_decide; naive_solver. Qed.

Lemma create_inl (r : M) (t : gmap Z M) e :
  create r t = inl e ↔ conflicts r t ∧ e = IntegrityError constraint_name.
Proof. unfold create. case_decide; naive_solver. Qed.

Lemma conflicts_insert (r r1 : M) (t : gmap Z M) k :
  t !! k = None →
  conflicts r (<[k := r1]> t) ↔
    (is_Some (organization r) ∧ organization r1 = organization r
     ∧ natural_key r1 = natural_key r)
    ∨ conflicts r t.
Proof.
  intros Hk. unfold conflicts. rewrite map_Exists_insert by done. tauto.
Qed.

Lemma global_never_conflicts (r : M) (t : gmap Z M) :
  organization r = None → ¬ conflicts r t.
Proof. intros E [[o Ho] _]. congruence. Qed.

(** C5, as the code has it: after a row with some natural key is created,
    a second row with the same key is refused with the name of the
    constraint when both carry the same organization; it is accepted in
    another scope that holds no such key; it is always accepted in the
    global scope, where the constraint does not apply. *)
Theorem create_same_key_twice (r1 r2 : M) (t t1 : gmap Z M) :
  natural_key r1 = natural_key r2 →
  create r1 t = inr t1 →
  (is_Some (organization r1) → organization r1 = organization r2 →
     create r2 t1 = inl (IntegrityError constraint_name))
  ∧ (organization r1 ≠ organization r2 → ¬ conflicts r2 t →
       ∃ t2, create r2 t1 = inr t2
             ∧ t2 !! next_pk t = Some r1
             ∧ t2 !! next_pk t1 = Some r2
             ∧ next_pk t ≠ next_pk t1)
  ∧ (organization r2 = None → ∃ t2, create r2 t1 = inr t2).
Proof.
  intros Hkey [Hfree ->]%create_inr.
  pose proof (next_pk_fresh t) as Hk.
  split; [|split].
  - intros Hsome Horg. apply create_inl. split; [|done].
    apply conflicts_insert; [done|]. left. by rewrite <- Horg.
  - intros Horg Hfree2.
    assert (next_pk t ≠ next_pk (<[next_pk t := r1]> t)) as Hne.
    { intros E. pose proof (next_pk_fresh (<[next_pk t := r1]> t)) as Hk'.
      rewrite <- E, lookup_insert_eq in Hk'. done. }
    eexists. split.
    + apply create_inr. split; [|done].
      rewrite conflicts_insert by done. tauto.
    + rewrite lookup_insert_ne, !lookup_insert_eq by done. done.
  - intros Hglobal. eexists. apply create_inr. split; [|done].
    by apply global_never_conflicts.
Qed.
End UniqueFacts.

Section UniqueExamples.
Import Project.

(** The statement above at the service "Audit" of tenant 1. *)
Lemma create_same_key_twice_witness :
  let audit o := Service.mk o None "Audit" "" in
  ∃ t1, create (audit (Some 1)) ∅ = inr t1
        ∧ create (audit (Some 1)) t1 = inl (IntegrityError "unique_tenant_service_name")
        ∧ (∃ t2, create (audit (Some 2)) t1 = inr t2)
        ∧ (∃ t2, create (audit None) t1 = inr t2).
Proof.
  intros audit.
  assert (create (audit (Some 1)) ∅ = inr (<[1 := audit (Some 1)]> ∅)) as E
    by (vm_compute; reflexivity).
  eexists. split; [exact E|].
  pose proof (create_same_key_twice (audit (Some 1)) (audit (Some 1)) ∅ _
                eq_refl E) as (Hdup & _ & _).
  pose proof (create_same_key_twice (audit (Some 1)) (audit (Some 2)) ∅ _
                eq_refl E) as (_ & Hother & _).
  pose proof (create_same_key_twice (audit (Some 1)) (audit None) ∅ _
                eq_refl E) as (_ & _ & Hglobal).
  split; [apply Hdup; [by eexists|done]|].
  split.
  - destruct Hother as (t2 & ? & _); [done| |by eexists].
    intros [_ (k & r & Hk & _)]. by rewrite lookup_empty in Hk.
  - by apply Hglobal.
Defined.

(** C5 as stated fails: two global services with the same name are both
    created. *)
Lemma create_accepts_global_duplicate :
  let audit := Service.mk None None "Audit" "" in
  ∃ t1 t2, create audit ∅ = inr t1
           ∧ create audit t1 = inr t2
           ∧ t2 !! 1 = Some audit ∧ t2 !! 2 = Some audit.
Proof.
  intros audit. do 2 eexists.
  split; [vm_compute; reflexivity|].
  split; [vm_compute; reflexivity|].
  split; reflexivity.
Qed.
End UniqueExamples.

(* ===================================================================== *)
(** * Deletion                                                          *)
(* ===================================================================== *)
Section DeletionFacts.
Import Project.

Lemma elem_of_keys_where {A} (P : A → Prop) `{!∀ x, Decision (P x)}
    (t : gmap Z A) k :
  k ∈ keys_where P t ↔ ∃ x, t !! k = Some x ∧ P x.
Proof.
  unfold keys_where. rewrite elem_of_dom. unfold is_Some.
  setoid_rewrite map_lookup_filter_Some. naive_solver.
Qed.

Lemma keys_where_empty {A} (P : A → Prop) `{!∀ x, Decision (P x)}
    (t : gmap Z A) :
  (∀ x, ¬ P x) → keys_where P t = ∅.
Proof.
  intros HP. apply set_eq. intros k. rewrite elem_of_keys_where.
  set_solver.
Qed.

Lemma lookup_without_keys {A} (c : gset Z) (t : gmap Z A) k :
  without_keys c t !! k = if decide (k ∈ c) then None else t !! k.
Proof.
  unfold without_keys. case_decide.
  - apply map_lookup_filter_None. right. intros x _. cbn. tauto.
  - destruct (t !! k) as [x|] eqn:E.
    + by apply map_lookup_filter_Some.
    + apply map_lookup_filter_None. by left.
Qed.

Lemma without_keys_empty {A} (t : gmap Z A) : without_keys ∅ t = t.
Proof. apply map_eq. intros k. rewrite lookup_without_keys. by case_decide. Qed.

Lemma refs_empty fk : ¬ refs fk ∅.
Proof. destruct fk; cbn; set_solver. Qed.

Lemma refs_singleton fk k : refs fk {[k]} ↔ fk = Some k.
Proof. destruct fk; cbn; set_solver. Qed.

(** *** Success and failure of a deletion *)

Lemma delete_row_protected db target reference :
  protected_by db target = Some reference →
  delete_row db target = inl (ProtectedError reference).
Proof. unfold delete_row. by intros ->. Qed.

Lemma delete_row_free db target :
  protected_by db target = None →
  delete_row db target = inr (after_delete db target).
Proof. unfold delete_row. by intros ->. Qed.

Lemma protected_by_None db target :
  protected_by db target = None ↔
    (∀ j row, rfp_services db !! j = Some row →
       ¬ refs (ProjectGeneratedRFPService.service row) (services_deleted target))
    ∧ (∀ j row, rfp_business_cycles db !! j = Some row →
         ProjectGeneratedRFPBusinessCycle.business_cycle row
         ∉ business_cycles_deleted target)
    ∧ (∀ j row, rfp_areas db !! j = Some row →
         ProjectGeneratedRFPArea.area row ∉ functional_areas_deleted db target).
Proof.
  unfold protected_by.
  repeat case_decide;
    repeat match goal with
    | H : map_Exists _ _ |- _ => destruct H as (j & row & Hj & Hrow)
    | H : ¬ map_Exists _ _ |- _ => rewrite map_not_Exists in H
    end;
    (split; [try done; intros _|try naive_solver]).
Qed.

(** *** What is collected for each kind of target *)

Lemma functional_areas_deleted_spec db target k :
  k ∈ functional_areas_deleted db target ↔
    target = TFunctionalArea k
    ∨ ∃ a, functional_areas db !! k = Some a
           ∧ target = TBusinessCycle (FunctionalArea.business_cycle a).
Proof.
  unfold functional_areas_deleted, business_cycles_deleted.
  rewrite elem_of_union, elem_of_keys_where.
  destruct target; set_solver.
Qed.

Lemma generated_rfps_deleted_spec db target p :
  p ∈ generated_rfps_deleted db target ↔
    target = TGeneratedRFP p
    ∨ ∃ r, generated_rfps db !! p = Some r
           ∧ (target = TUser (GeneratedRFP.user r)
              ∨ target = TIndustry (GeneratedRFP.industry r)).
Proof.
  unfold generated_rfps_deleted, users_deleted, industries_deleted.
  rewrite elem_of_union, elem_of_keys_where.
  destruct target; set_solver.
Qed.

Lemma clear_creator_id {M} `{TenantOwnedMixin M} target (t : gmap Z M) :
  users_deleted target = ∅ → clear_creator target <$> t = t.
Proof.
  intros E. apply map_eq. intros k. rewrite lookup_fmap.
  destruct (t !! k) as [r|]; [|done]. cbn. f_equal.
  unfold clear_creator. rewrite E. case_decide as Hr; [|done].
  by apply refs_empty in Hr.
Qed.

(** *** Protected rows *)

Lemma delete_service_protected db s j row :
  rfp_services db !! j = Some row →
  ProjectGeneratedRFPService.service row = Some s →
  delete_row db (TService s)
  = inl (ProtectedError "ProjectGeneratedRFPService.service").
Proof.
  intros Hj Hs. apply delete_row_protected. unfold protected_by.
  rewrite decide_True; [done|].
  exists j, row. split; [done|]. rewrite Hs. cbn. set_solver.
Qed.

Lemma delete_business_cycle_protected db b j row :
  rfp_business_cycles db !! j = Some row →
  ProjectGeneratedRFPBusinessCycle.business_cycle row = b →
  delete_row db (TBusinessCycle b)
  = inl (ProtectedError "ProjectGeneratedRFPBusinessCycle.business_cycle").
Proof.
  intros Hj Hb. apply delete_row_protected. unfold protected_by.
  rewrite decide_False, decide_True; [done| |].
  - exists j, row. split; [done|]. rewrite Hb. cbn. set_solver.
  - intros (? & ? & _ & Hr). by apply refs_empty in Hr.
Qed.

Lemma delete_functional_area_protected db a j row :
  rfp_areas db !! j = Some row →
  ProjectGeneratedRFPArea.area row = a →
  delete_row db (TFunctionalArea a)
  = inl (ProtectedError "ProjectGeneratedRFPArea.area").
Proof.
  intros Hj Ha. apply delete_row_protected. unfold protected_by.
  rewrite decide_False, decide_False, decide_True; [done| | |].
  - exists j, row. split; [done|].
    apply functional_areas_deleted_spec. left. by rewrite Ha.
  - intros (? & ? & _ & Hr). cbn in Hr. set_solver.
  - intros (? & ? & _ & Hr). by apply refs_empty in Hr.
Qed.

(** *** Rows that nothing protects *)

Lemma delete_service_free db s :
  (∀ j row, rfp_services db !! j = Some row →
     ProjectGeneratedRFPService.service row ≠ Some s) →
  ∃ db', delete_row db (TService s) = inr db'
         ∧ ∀ k, services db' !! k
                = if decide (k = s) then None else services db !! k.
Proof.
  intros Hfree. eexists. split.
  - apply delete_row_free, protected_by_None. repeat split.
    + intros j row Hj Hr. apply refs_singleton in Hr. by eapply Hfree.
    + intros j row Hj. cbn. set_solver.
    + intros j row Hj Hin. apply functional_areas_deleted_spec in Hin.
      naive_solver.
  - intros k. cbn [services after_delete].
    rewrite lookup_without_keys, clear_creator_id by done.
    cbn. repeat case_decide; set_solver.
Qed.

Lemma delete_functional_area_free db a :
  (∀ j row, rfp_areas db !! j = Some row →
     ProjectGeneratedRFPArea.area row ≠ a) →
  ∃ db', delete_row db (TFunctionalArea a) = inr db'
         ∧ ∀ k, functional_areas db' !! k
                = if decide (k = a) then None else functional_areas db !! k.
Proof.
  intros Hfree. eexists. split.
  - apply delete_row_free, protected_by_None. repeat split.
    + intros j row Hj Hr. by apply refs_empty in Hr.
    + intros j row Hj. cbn. set_solver.
    + intros j row Hj Hin. apply functional_areas_deleted_spec in Hin.
      destruct Hin as [[= E]|(? & _ & [=])]. by eapply Hfree.
  - intros k. cbn [functional_areas after_delete].
    rewrite lookup_without_keys, clear_creator_id by done.
    destruct (decide (k = a)) as [->|Hk].
    + rewrite decide_True; [done|].
      apply functional_areas_deleted_spec. by left.
    + rewrite decide_False; [done|].
      rewrite functional_areas_deleted_spec. naive_solver.
Qed.

Lemma delete_business_cycle_free db b :
  (∀ j row, rfp_business_cycles db !! j = Some row →
     ProjectGeneratedRFPBusinessCycle.business_cycle row ≠ b) →
  (∀ j row a, rfp_areas db !! j = Some row →
     functional_areas db !! ProjectGeneratedRFPArea.area row = Some a →
     FunctionalArea.business_cycle a ≠ b) →
  ∃ db', delete_row db (TBusinessCycle b) = inr db'
         ∧ (∀ k, business_cycles db' !! k
                 = if decide (k = b) then None else business_cycles db !! k)
         ∧ (∀ k a, functional_areas db' !! k = Some a ↔
                   functional_areas db !! k = Some a
                   ∧ FunctionalArea.business_cycle a ≠ b).
Proof.
  intros Hfree Hareas. eexists. split; [|split].
  - apply delete_row_free, protected_by_None. repeat split.
    + intros j row Hj Hr. by apply refs_empty in Hr.
    + intros j row Hj. cbn. intros ?%elem_of_singleton. by eapply Hfree.
    + intros j row Hj Hin. apply functional_areas_deleted_spec in Hin.
      destruct Hin as [[=]|(a & Ha & [= E])]. by eapply Hareas.
  - intros k. cbn [business_cycles after_delete].
    rewrite lookup_without_keys, clear_creator_id by done.
    cbn. repeat case_decide; set_solver.
  - intros k a. cbn [functional_areas after_delete].
    rewrite lookup_without_keys, clear_creator_id by done.
    case_decide as Hin.
    + apply functional_areas_deleted_spec in Hin.
      destruct Hin as [[=]|(a' & Ha' & [= E])]. naive_solver.
    + rewrite functional_areas_deleted_spec in Hin.
      split; [|naive_solver]. intros Ha. split; [done|].
      intros E. apply Hin. right. exists a. by rewrite E.
Qed.

(** *** Cascades *)

Lemma delete_generated_rfp_cascades db p :
  ∃ db', delete_row db (TGeneratedRFP p) = inr db'
    ∧ generated_rfps db' !! p = None
    ∧ (∀ j row, rfp_services db' !! j = Some row ↔
         rfp_services db !! j = Some row
         ∧ ProjectGeneratedRFPService.generated_rfp row ≠ Some p)
    ∧ (∀ j row, rfp_business_cycles db' !! j = Some row ↔
         rfp_business_cycles db !! j = Some row
         ∧ ProjectGeneratedRFPBusinessCycle.generated_rfp row ≠ p)
    ∧ (∀ j row, rfp_areas db' !! j = Some row ↔
         rfp_areas db !! j = Some row
         ∧ ProjectGeneratedRFPArea.generated_rfp row ≠ p).
Proof.
  assert (∀ q, q ∈ generated_rfps_deleted db (TGeneratedRFP p) ↔ q = p) as Hdel.
  { intros q. rewrite generated_rfps_deleted_spec. naive_solver. }
  eexists. split; [|split; [|split; [|split]]].
  - apply delete_row_free, protected_by_None. repeat split.
    + intros j row Hj Hr. by apply refs_empty in Hr.
    + intros j row Hj. cbn. set_solver.
    + intros j row Hj Hin. apply functional_areas_deleted_spec in Hin.
      naive_solver.
  - cbn [generated_rfps after_delete]. rewrite lookup_without_keys.
    rewrite decide_True; [done|]. by apply Hdel.
  - intros j row. cbn [rfp_services after_delete].
    rewrite lookup_without_keys. unfold rfp_services_deleted.
    case_decide as Hin.
    + apply elem_of_union in Hin as [Hin|Hin]; [set_solver|].
      apply elem_of_keys_where in Hin as (row' & Hrow' & Hr).
      split; [done|]. intros [Hrow Hne].
      assert (row' = row) as -> by congruence.
      destruct (ProjectGeneratedRFPService.generated_rfp row) as [q|];
        [|done]. cbn in Hr. apply Hdel in Hr. congruence.
    + split; [|naive_solver]. intros Hrow. split; [done|].
      intros Hp. apply Hin, elem_of_union. right.
      apply elem_of_keys_where. exists row. split; [done|].
      rewrite Hp. cbn. by apply Hdel.
  - intros j row. cbn [rfp_business_cycles after_delete].
    rewrite lookup_without_keys. unfold rfp_business_cycles_deleted.
    case_decide as Hin.
    + apply elem_of_union in Hin as [Hin|Hin]; [set_solver|].
      apply elem_of_keys_where in Hin as (row' & Hrow' & Hr).
      split; [done|]. intros [Hrow Hne].
      assert (row' = row) as -> by congruence.
      by apply Hdel in Hr.
    + split; [|naive_solver]. intros Hrow. split; [done|].
      intros Hp. apply Hin, elem_of_union. right.
      apply elem_of_keys_where. exists row. split; [done|]. by apply Hdel.
  - intros j row. cbn [rfp_areas after_delete].
    rewrite lookup_without_keys. unfold rfp_areas_deleted.
    case_decide as Hin.
    + apply elem_of_union in Hin as [Hin|Hin]; [set_solver|].
      apply elem_of_keys_where in Hin as (row' & Hrow' & Hr).
      split; [done|]. intros [Hrow Hne].
      assert (row' = row) as -> by congruence.
      by apply Hdel in Hr.
    + split; [|naive_solver]. intros Hrow. split; [done|].
      intros Hp. apply Hin, elem_of_union. right.
      apply elem_of_keys_where. exists row. split; [done|]. by apply Hdel.
Qed.

(** *** Removing a join row *)

Lemma join_target_protects_nothing db target :
  services_deleted target = ∅ →
  business_cycles_deleted target = ∅ →
  functional_areas_deleted db target = ∅ →
  delete_row db target = inr (after_delete db target).
Proof.
  intros Es Eb Ea. apply delete_row_free, protected_by_None.
  rewrite Es, Eb, Ea. repeat split.
  - intros j row _ Hr. by apply refs_empty in Hr.
  - intros j row _. set_solver.
  - intros j row _. set_solver.
Qed.

Lemma functional_areas_deleted_join db target :
  business_cycles_deleted target = ∅ →
  (∀ k, target ≠ TFunctionalArea k) →
  functional_areas_deleted db target = ∅.
Proof.
  intros Eb Hne. apply set_eq. intros k.
  rewrite functional_areas_deleted_spec. split; [|set_solver].
  intros [->|(a & _ & ->)]; [by destruct (Hne k)|]. cbn in Eb. set_solver.
Qed.

Lemma generated_rfps_deleted_join db target :
  users_deleted target = ∅ → industries_deleted target = ∅ →
  (∀ k, target ≠ TGeneratedRFP k) →
  generated_rfps_deleted db target = ∅.
Proof.
  intros Eu Ei Hne. apply set_eq. intros k.
  rewrite generated_rfps_deleted_spec. split; [|set_solver].
  intros [->|(a & _ & [->| ->])]; [by destruct (Hne k)| |]; cbn in *; set_solver.
Qed.

Lemma delete_rfp_service db j :
  ∃ db', delete_row db (TRfpService j) = inr db'
    ∧ ∀ k, rfp_services db' !! k
           = if decide (k = j) then None else rfp_services db !! k.
Proof.
  eexists. split.
  - apply join_target_protects_nothing; try done.
    by apply functional_areas_deleted_join.
  - intros k. cbn [rfp_services after_delete]. rewrite lookup_without_keys.
    unfold rfp_services_deleted.
    rewrite generated_rfps_deleted_join by done.
    rewrite keys_where_empty by (intros ?; apply refs_empty).
    repeat case_decide; set_solver.
Qed.

Lemma delete_rfp_business_cycle db j :
  ∃ db', delete_row db (TRfpBusinessCycle j) = inr db'
    ∧ ∀ k, rfp_business_cycles db' !! k
           = if decide (k = j) then None else rfp_business_cycles db !! k.
Proof.
  eexists. split.
  - apply join_target_protects_nothing; try done.
    by apply functional_areas_deleted_join.
  - intros k. cbn [rfp_business_cycles after_delete].
    rewrite lookup_without_keys. unfold rfp_business_cycles_deleted.
    rewrite generated_rfps_deleted_join by done.
    rewrite keys_where_empty by set_solver.
    repeat case_decide; set_solver.
Qed.

Lemma delete_rfp_area db j :
  ∃ db', delete_row db (TRfpArea j) = inr db'
    ∧ ∀ k, rfp_areas db' !! k
           = if decide (k = j) then None else rfp_areas db !! k.
Proof.
  eexists. split.
  - apply join_target_protects_nothing; try done.
    by apply functional_areas_deleted_join.
  - intros k. cbn [rfp_areas after_delete].
    rewrite lookup_without_keys. unfold rfp_areas_deleted.
    rewrite generated_rfps_deleted_join by done.
    rewrite keys_where_empty by set_solver.
    repeat case_decide; set_solver.
Qed.
End DeletionFacts.

Section DeletionClaims.
Import Project.

(** C8, as the code has it: deleting a service, business cycle or
    functional area that a join row of a proposal points at fails with
    [ProtectedError]; a service or a functional area that no join row
    points at is deleted; a business cycle is deleted when no join row
    points at it nor at one of its functional areas, which go with it;
    deleting a proposal succeeds and removes its join rows and no
    others. *)
Theorem protect_and_cascade (db : Database) :
  (∀ s j row,
     rfp_services db !! j = Some row →
     ProjectGeneratedRFPService.service row = Some s →
     delete_row db (TService s)
     = inl (ProtectedError "ProjectGeneratedRFPService.service"))
  ∧ (∀ b j row,
       rfp_business_cycles db !! j = Some row →
       ProjectGeneratedRFPBusinessCycle.business_cycle row = b →
       delete_row db (TBusinessCycle b)
       = inl (ProtectedError "ProjectGeneratedRFPBusinessCycle.business_cycle"))
  ∧ (∀ a j row,
       rfp_areas db !! j = Some row →
       ProjectGeneratedRFPArea.area row = a →
       delete_row db (TFunctionalArea a)
       = inl (ProtectedError "ProjectGeneratedRFPArea.area"))
  ∧ (∀ s,
       (∀ j row, rfp_services db !! j = Some row →
          ProjectGeneratedRFPService.service row ≠ Some s) →
       ∃ db', delete_row db (TService s) = inr db' ∧ services db' !! s = None)
  ∧ (∀ a,
       (∀ j row, rfp_areas db !! j = Some row →
          ProjectGeneratedRFPArea.area row ≠ a) →
       ∃ db', delete_row db (TFunctionalArea a) = inr db'
              ∧ functional_areas db' !! a = None)
  ∧ (∀ b,
       (∀ j row, rfp_business_cycles db !! j = Some row →
          ProjectGeneratedRFPBusinessCycle.business_cycle row ≠ b) →
       (∀ j row a, rfp_areas db !! j = Some row →
          functional_areas db !! ProjectGeneratedRFPArea.area row = Some a →
          FunctionalArea.business_cycle a ≠ b) →
       ∃ db', delete_row db (TBusinessCycle b) = inr db'
              ∧ business_cycles db' !! b = None)
  ∧ (∀ p, ∃ db',
       delete_row db (TGeneratedRFP p) = inr db'
       ∧ generated_rfps db' !! p = None
       ∧ (∀ j row, rfp_services db' !! j = Some row ↔
            rfp_services db !! j = Some row
            ∧ ProjectGeneratedRFPService.generated_rfp row ≠ Some p)
       ∧ (∀ j row, rfp_business_cycles db' !! j = Some row ↔
            rfp_business_cycles db !! j = Some row
            ∧ ProjectGeneratedRFPBusinessCycle.generated_rfp row ≠ p)
       ∧ (∀ j row, rfp_areas db' !! j = Some row ↔
            rfp_areas db !! j = Some row
            ∧ ProjectGeneratedRFPArea.generated_rfp row ≠ p)).
Proof.
  repeat split.
  - apply delete_service_protected.
  - apply delete_business_cycle_protected.
  - apply delete_functional_area_protected.
  - intros s Hfree.
    destruct (delete_service_free db s Hfree) as (db' & E & Hs).
    exists db'. split; [done|]. rewrite Hs. by rewrite decide_True.
  - intros a Hfree.
    destruct (delete_functional_area_free db a Hfree) as (db' & E & Ha).
    exists db'. split; [done|]. rewrite Ha. by rewrite decide_True.
  - intros b Hfree Hareas.
    destruct (delete_business_cycle_free db b Hfree Hareas)
      as (db' & E & Hb & _).
    exists db'. split; [done|]. rewrite Hb. by rewrite decide_True.
  - apply delete_generated_rfp_cascades.
Qed.

(** The statement above on the sample database, before and after the
    join rows are removed. *)
Lemma protect_and_cascade_witness :
  delete_row Sample.db (TService 1)
  = inl (ProtectedError "ProjectGeneratedRFPService.service")
  ∧ (∃ db', delete_row Sample.unjoined (TService 1) = inr db'
            ∧ services db' !! 1 = None)
  ∧ (∃ db', delete_row Sample.unjoined (TBusinessCycle 1) = inr db'
            ∧ business_cycles db' !! 1 = None).
Proof.
  destruct (protect_and_cascade Sample.db) as (Hs & _).
  destruct (protect_and_cascade Sample.unjoined)
    as (_ & _ & _ & Hfree & _ & Hcycle & _).
  split; [|split].
  - apply (Hs 1 1 (ProjectGeneratedRFPService.mk (Some 100) (Some 1)));
      reflexivity.
  - apply Hfree. intros j row Hj. cbn in Hj. by rewrite lookup_empty in Hj.
  - apply Hcycle.
    + intros j row Hj. cbn in Hj. by rewrite lookup_empty in Hj.
    + intros j row a Hj. cbn in Hj. by rewrite lookup_empty in Hj.
Defined.

(** C8 as stated fails: once the only join row that points at business
    cycle 1 is removed, deleting the cycle is still refused, because the
    deletion cascades to functional area 10, which a join row protects. *)
Lemma business_cycle_stays_protected_by_its_areas :
  ∃ db1,
    delete_row Sample.db (TRfpBusinessCycle 1) = inr db1
    ∧ rfp_business_cycles db1 = ∅
    ∧ delete_row db1 (TBusinessCycle 1)
      = inl (ProtectedError "ProjectGeneratedRFPArea.area").
Proof.
  eexists. split; [vm_compute; reflexivity|].
  split; [reflexivity|]. vm_compute. reflexivity.
Qed.
End DeletionClaims.

Section UserDeletion.
Import Project.

Lemma clear_creator_user {M} `{TenantOwnedMixin M} u (r : M) :
  clear_creator (TUser u) r
  = if decide (user r = Some u) then set_user None r else r.
Proof.
  unfold clear_creator. cbn [users_deleted].
  destruct (decide (refs (user r) {[u]})) as [Hr|Hr],
           (decide (user r = Some u)) as [E|E];
    try done; rewrite refs_singleton in Hr; done.
Qed.

Lemma lookup_cleared {M} `{TenantOwnedMixin M} u (t : gmap Z M) k :
  without_keys ∅ (clear_creator (TUser u) <$> t) !! k
  = (λ r, if decide (user r = Some u) then set_user None r else r) <$> t !! k.
Proof.
  rewrite without_keys_empty, lookup_fmap.
  destruct (t !! k); [|done]. cbn. by rewrite clear_creator_user.
Qed.

Lemma delete_user_returns db u :
  delete_row db (TUser u) = inr (after_delete db (TUser u)).
Proof.
  apply join_target_protects_nothing; try done.
  by apply functional_areas_deleted_join.
Qed.

(** C10, as the code has it: deleting a user always succeeds; every row
    of the five catalogue tables stays, with [user] set to null when it
    was the deleted user and all other fields as they were; a proposal
    whose [user] is the deleted user is deleted with it. *)
Theorem delete_user_clears_creator (db : Database) (u : Z) :
  ∃ db',
    delete_row db (TUser u) = inr db'
    ∧ (∀ k, industries db' !! k
            = (λ r, if decide (Industry.user r = Some u)
                    then Industry.mk (Industry.organization r) None
                           (Industry.blocked_for r) (Industry.name r)
                           (Industry.description r) (Industry.url r)
                    else r) <$> industries db !! k)
    ∧ (∀ k, services db' !! k
            = (λ r, if decide (Service.user r = Some u)
                    then Service.mk (Service.organization r) None
                           (Service.name r) (Service.description r)
                    else r) <$> services db !! k)
    ∧ (∀ k, business_cycles db' !! k
            = (λ r, if decide (BusinessCycle.user r = Some u)
                    then BusinessCycle.mk (BusinessCycle.organization r) None
                           (BusinessCycle.order r) (BusinessCycle.name r)
                           (BusinessCycle.description r)
                    else r) <$> business_cycles db !! k)
    ∧ (∀ k, functional_areas db' !! k
            = (λ r, if decide (FunctionalArea.user r = Some u)
                    then FunctionalArea.mk (FunctionalArea.organization r) None
                           (FunctionalArea.business_cycle r)
                           (FunctionalArea.order r) (FunctionalArea.name r)
                           (FunctionalArea.description r)
                    else r) <$> functional_areas db !! k)
    ∧ (∀ k, providers db' !! k
            = (λ r, if decide (Provider.user r = Some u)
                    then Provider.mk (Provider.organization r) None
                           (Provider.company_name r) (Provider.contact_name r)
                           (Provider.contact_phone r) (Provider.contact_email r)
                    else r) <$> providers db !! k)
    ∧ (∀ p r, generated_rfps db !! p = Some r →
              generated_rfps db' !! p
              = if decide (GeneratedRFP.user r = u) then None
                else Some (forget_users (TUser u) r)).
Proof.
  exists (after_delete db (TUser u)).
  split; [apply delete_user_returns|].
  assert (functional_areas_deleted db (TUser u) = ∅) as Ea
    by by apply functional_areas_deleted_join.
  repeat split.
  - intros k. exact (lookup_cleared u (industries db) k).
  - intros k. exact (lookup_cleared u (services db) k).
  - intros k. exact (lookup_cleared u (business_cycles db) k).
  - intros k. cbn [functional_areas after_delete]. rewrite Ea.
    exact (lookup_cleared u (functional_areas db) k).
  - intros k. exact (lookup_cleared u (providers db) k).
  - intros p r Hp. cbn [generated_rfps after_delete].
    rewrite lookup_without_keys, lookup_fmap, Hp.
    rewrite (decide_ext _ (GeneratedRFP.user r = u)); [done|].
    rewrite generated_rfps_deleted_spec. split; [|naive_solver].
    intros [[=]|(r' & Hr' & [[= E]|[=]])]. congruence.
Qed.

(** The statement above for user 1 of the sample database. *)
Lemma delete_user_clears_creator_witness :
  ∃ db',
    delete_row Sample.db (TUser 1) = inr db'
    ∧ services db' !! 1 = Some (Service.mk (Some 1) None "Audit" "Yearly audit")
    ∧ generated_rfps db' !! 100 = None.
Proof.
  destruct (delete_user_clears_creator Sample.db 1)
    as (db' & E & _ & Hs & _ & _ & _ & Hp).
  exists db'. split; [exact E|]. split.
  - rewrite Hs. reflexivity.
  - rewrite (Hp 100 Sample.proposal); reflexivity.
Defined.

(** C10 as stated fails: proposal 100 was created by user 1 and is gone
    once the user is deleted. *)
Lemma delete_user_deletes_owned_proposal :
  generated_rfps Sample.db !! 100 = Some Sample.proposal
  ∧ GeneratedRFP.user Sample.proposal = 1
  ∧ ∃ db', delete_row Sample.db (TUser 1) = inr db'
           ∧ generated_rfps db' !! 100 = None
           ∧ generated_rfps db' = ∅.
Proof.
  split; [reflexivity|]. split; [reflexivity|].
  eexists. split; [vm_compute; reflexivity|]. split; reflexivity.
Qed.
End UserDeletion.

(* ===================================================================== *)
(** * Snapshots                                                         *)
(* ===================================================================== *)
Section SnapshotFacts.
Import Project Integrity.

Lemma finalize_inr p db f db1 :
  finalize p db = inr (f, db1) ↔
    ∃ r o, generated_rfps db !! p = Some r
           ∧ GeneratedRFP.organization r = Some o
           ∧ f = next_pk (finalized_rfps db)
           ∧ db1 = set_finalized_rfps
                     (<[f := FinalizedRFP.mk (Some p) o "finalized"
                               (GeneratedRFP.start_date r)
                               (GeneratedRFP.end_date r)
                               (snapshot_of p r db)]> (finalized_rfps db)) db.
Proof.
  unfold finalize.
  destruct (generated_rfps db !! p) as [r|]; [|naive_solver].
  destruct (GeneratedRFP.organization r) as [o|] eqn:Ho.
  - split.
    + intros [= <- <-]. by exists r, o.
    + intros (r' & o' & [= <-] & Ho' & -> & ->).
      rewrite Ho in Ho'. by injection Ho' as <-.
  - split; [done|]. intros (r' & o' & [= <-] & Ho' & _). congruence.
Qed.

Lemma finalize_missing_owner p db r :
  generated_rfps db !! p = Some r →
  GeneratedRFP.organization r = None →
  finalize p db = inl MissingOwnerError.
Proof. unfold finalize. by intros -> ->. Qed.

(** What the three reads of the join tables return. *)
Lemma services_of_spec p db s :
  s ∈ services_of p db ↔
    ∃ j, rfp_services db !! j = Some (ProjectGeneratedRFPService.mk (Some p) (Some s)).
Proof.
  unfold services_of. rewrite list_elem_of_omap. split.
  - intros ([j [g s']] & Hj%elem_of_map_to_list & Hs). cbn in Hs.
    case_decide as Hg; [|done]. cbn in Hg. simplify_eq. by exists j.
  - intros [j Hj]. exists (j, ProjectGeneratedRFPService.mk (Some p) (Some s)).
    split; [by apply elem_of_map_to_list|]. cbn. by rewrite decide_True.
Qed.

Lemma business_cycles_of_spec p db b :
  b ∈ business_cycles_of p db ↔
    ∃ j, rfp_business_cycles db !! j = Some (ProjectGeneratedRFPBusinessCycle.mk p b).
Proof.
  unfold business_cycles_of. rewrite list_elem_of_omap. split.
  - intros ([j [g b']] & Hj%elem_of_map_to_list & Hb). cbn in Hb.
    case_decide as Hg; [|done]. cbn in Hg. simplify_eq. by exists j.
  - intros [j Hj]. exists (j, ProjectGeneratedRFPBusinessCycle.mk p b).
    split; [by apply elem_of_map_to_list|]. cbn. by rewrite decide_True.
Qed.

Lemma areas_of_spec p db a priority :
  (a, priority) ∈ areas_of p db ↔
    ∃ j, rfp_areas db !! j = Some (ProjectGeneratedRFPArea.mk p a priority).
Proof.
  unfold areas_of. rewrite list_elem_of_omap. split.
  - intros ([j [g a' pr]] & Hj%elem_of_map_to_list & Ha). cbn in Ha.
    case_decide as Hg; [|done]. cbn in Hg. simplify_eq. by exists j.
  - intros [j Hj]. exists (j, ProjectGeneratedRFPArea.mk p a priority).
    split; [by apply elem_of_map_to_list|]. cbn. by rewrite decide_True.
Qed.

(** A read that keeps at most one row per value lists no value twice. *)
Lemma NoDup_fmap_omap {A B C} (g : B → C) (f : A → option B) (l : list A) :
  NoDup l →
  (∀ x y u v, x ∈ l → y ∈ l → f x = Some u → f y = Some v → g u = g v → x = y) →
  NoDup (g <$> omap f l).
Proof.
  induction 1 as [|x l Hx Hl IH]; intros Hinj; [constructor|].
  cbn. destruct (f x) as [u|] eqn:Hu.
  - cbn. constructor.
    + intros (v & Huv & (y & Hy & Hv)%list_elem_of_omap)%list_elem_of_fmap.
      apply Hx. rewrite (Hinj x y u v); [done|left|by right|done..].
    + apply IH. intros x' y' u' v' Hx' Hy'. apply Hinj; by right.
  - apply IH. intros x' y' u' v' Hx' Hy'. apply Hinj; by right.
Qed.

Lemma services_of_NoDup p db : joins_unique db → NoDup (services_of p db).
Proof.
  intros [Us _ _]. unfold services_of.
  rewrite <- (list_fmap_id (omap _ _)). apply NoDup_fmap_omap.
  { apply NoDup_map_to_list. }
  intros [j1 [g1 s1]] [j2 [g2 s2]] u v H1%elem_of_map_to_list H2%elem_of_map_to_list.
  cbn. repeat case_decide; try done. cbn in *. intros -> -> E. cbn in E. subst.
  assert (j1 = j2) as <- by (by eapply (Us j1 j2)). congruence.
Qed.

Lemma business_cycles_of_NoDup p db :
  joins_unique db → NoDup (business_cycles_of p db).
Proof.
  intros [_ Ub _]. unfold business_cycles_of.
  rewrite <- (list_fmap_id (omap _ _)). apply NoDup_fmap_omap.
  { apply NoDup_map_to_list. }
  intros [j1 [g1 b1]] [j2 [g2 b2]] u v H1%elem_of_map_to_list H2%elem_of_map_to_list.
  cbn. repeat case_decide; try done. cbn in *. intros [= <-] [= <-] E. cbn in E. subst.
  assert (j1 = j2) as <- by (by eapply (Ub j1 j2)). congruence.
Qed.

Lemma areas_of_NoDup p db : joins_unique db → NoDup (areas_of p db).*1.
Proof.
  intros [_ _ Ua]. unfold areas_of. apply NoDup_fmap_omap.
  { apply NoDup_map_to_list. }
  intros [j1 [g1 a1 p1]] [j2 [g2 a2 p2]] u v
    H1%elem_of_map_to_list H2%elem_of_map_to_list.
  cbn. repeat case_decide; try done. cbn in *. intros [= <-] [= <-] E. cbn in E. subst.
  assert (j1 = j2) as <- by (by eapply (Ua j1 j2)). congruence.
Qed.

Lemma snapshot_data_clear_source db target f :
  FinalizedRFP.snapshot_data (clear_source db target f)
  = FinalizedRFP.snapshot_data f.
Proof. unfold clear_source. by case_decide. Qed.

Lemma snapshot_after_delete db target f :
  snapshot f (after_delete db target) = snapshot f db.
Proof.
  unfold snapshot. cbn [finalized_rfps after_delete]. rewrite lookup_fmap.
  destruct (finalized_rfps db !! f); [|done].
  cbn. by rewrite snapshot_data_clear_source.
Qed.

Lemma snapshot_delete_row db target db' f :
  delete_row db target = inr db' → snapshot f db' = snapshot f db.
Proof.
  unfold delete_row. destruct (protected_by db target); [done|].
  intros [= <-]. apply snapshot_after_delete.
Qed.

(** A change of a proposal leaves every stored snapshot as it is. *)
Lemma snapshot_mutate p m db db' f :
  mutate p m db = inr db' → snapshot f db' = snapshot f db.
Proof.
  destruct m; cbn [mutate]; try (by intros [= <-]);
    try (repeat case_decide; by intros [= <-]).
  - destruct (generated_rfps db !! p); [|by intros [= <-]].
    destruct (refused a db); by intros [= <-].
  - apply snapshot_delete_row.
Qed.

Lemma snapshot_mutate_all p ms db db' f :
  mutate_all p ms db = inr db' → snapshot f db' = snapshot f db.
Proof.
  revert db. induction ms as [|m ms IH]; intros db; cbn [mutate_all].
  - by intros [= <-].
  - destruct (mutate p m db) as [e|db1] eqn:E; [done|].
    intros Hms. rewrite (IH _ Hms). by eapply snapshot_mutate.
Qed.

(** C7: when [finalize] succeeds, the snapshot of the new row is a
    document that holds the content the proposal has at the call: the
    columns of its row and, read off the three join tables, its services,
    its business cycles and its functional areas with their priorities,
    each one once when the unique constraints of the join tables hold.
    After every later sequence of changes to any proposal, its deletion
    included, the snapshot still is that document, and the snapshots taken
    before are as they were. *)
Theorem finalize_snapshot_is_frozen (db : Database) (p f : Z) (db1 : Database) :
  finalize p db = inr (f, db1) →
  ∃ r doc ss bs aps,
    generated_rfps db !! p = Some r
    ∧ snapshot f db = None
    ∧ snapshot f db1 = Some doc
    ∧ json_get "rfp_name" JNull doc = JStr (GeneratedRFP.rfp_name r)
    ∧ json_get "rfp_description" JNull doc = JStr (GeneratedRFP.rfp_description r)
    ∧ json_get "company_url" JNull doc = JStr (GeneratedRFP.company_url r)
    ∧ json_get "value_propositions" JNull doc
      = JStr (GeneratedRFP.value_propositions r)
    ∧ json_get "industry" JNull doc = JNum (GeneratedRFP.industry r)
    ∧ json_get "questionnaires" JNull doc = GeneratedRFP.questionnaires r
    ∧ json_get "descriptions" JNull doc = GeneratedRFP.descriptions r
    ∧ json_get "services" JNull doc = JArr (JNum <$> ss)
    ∧ (∀ s, s ∈ ss ↔
         ∃ j, rfp_services db !! j
              = Some (ProjectGeneratedRFPService.mk (Some p) (Some s)))
    ∧ json_get "business_cycles" JNull doc = JArr (JNum <$> bs)
    ∧ (∀ b, b ∈ bs ↔
         ∃ j, rfp_business_cycles db !! j
              = Some (ProjectGeneratedRFPBusinessCycle.mk p b))
    ∧ json_get "areas" JNull doc
      = JArr ((λ ap, JArr [JNum ap.1; JStr (ProjectGeneratedRFPArea.value ap.2)])
              <$> aps)
    ∧ (∀ a priority, (a, priority) ∈ aps ↔
         ∃ j, rfp_areas db !! j = Some (ProjectGeneratedRFPArea.mk p a priority))
    ∧ (joins_unique db → NoDup ss ∧ NoDup bs ∧ NoDup aps.*1)
    ∧ ∀ q ms db2, mutate_all q ms db1 = inr db2 →
        snapshot f db2 = Some doc
        ∧ ∀ f', f' ≠ f → snapshot f' db2 = snapshot f' db.
Proof.
  intros (r & o & Hr & Ho & -> & ->)%finalize_inr.
  exists r, (snapshot_of p r db), (services_of p db), (business_cycles_of p db),
    (areas_of p db).
  assert (snapshot (next_pk (finalized_rfps db))
            (set_finalized_rfps
               (<[next_pk (finalized_rfps db) :=
                    FinalizedRFP.mk (Some p) o "finalized"
                      (GeneratedRFP.start_date r) (GeneratedRFP.end_date r)
                      (snapshot_of p r db)]> (finalized_rfps db)) db)
          = Some (snapshot_of p r db)) as Hnew.
  { unfold snapshot. cbn [finalized_rfps set_finalized_rfps].
    by rewrite lookup_insert_eq. }
  split; [done|]. split; [unfold snapshot; by rewrite next_pk_fresh|].
  split; [done|].
  do 8 (split; [reflexivity|]).
  split; [intros s; apply services_of_spec|].
  split; [reflexivity|]. split; [intros b; apply business_cycles_of_spec|].
  split; [reflexivity|]. split; [intros a priority; apply areas_of_spec|].
  split.
  { intros Hu. split; [by apply services_of_NoDup|].
    split; [by apply business_cycles_of_NoDup | by apply areas_of_NoDup]. }
  intros q ms db2 Hms. split.
  - by rewrite (snapshot_mutate_all _ _ _ _ _ Hms).
  - intros f' Hf'. rewrite (snapshot_mutate_all _ _ _ _ _ Hms).
    unfold snapshot. cbn [finalized_rfps set_finalized_rfps].
    by rewrite lookup_insert_ne.
Qed.

(** The statement above for proposal 100 of the stocked sample database:
    after the snapshot is taken the proposal gets service 2, loses service
    1, gets another list of questions and is deleted. *)
Lemma finalize_snapshot_is_frozen_witness :
  ∃ f db1 db2 doc,
    finalize 100 Sample.stocked = inr (f, db1)
    ∧ mutate_all 100 [AddService 2; RemoveService 1;
                      Update (SetQuestionnaires (JArr [])); Delete] db1
      = inr db2
    ∧ snapshot f db1 = Some doc
    ∧ json_get "services" JNull doc = JArr [JNum 1]
    ∧ json_get "questionnaires" JNull doc = JArr [JStr "How many users?"]
    ∧ snapshot f db2 = Some doc
    ∧ generated_rfps db2 !! 100 = None
    ∧ FinalizedRFP.source_rfp <$> finalized_rfps db2 !! f = Some None.
Proof.
  assert (∃ db1, finalize 100 Sample.stocked = inr (1, db1)) as [db1 E].
  { eexists. vm_compute. reflexivity. }
  assert (∃ db2,
    mutate_all 100 [AddService 2; RemoveService 1;
                    Update (SetQuestionnaires (JArr [])); Delete] db1 = inr db2
    ∧ generated_rfps db2 !! 100 = None
    ∧ FinalizedRFP.source_rfp <$> finalized_rfps db2 !! 1 = Some None
    ∧ (json_get "services" JNull <$> snapshot 1 db1) = Some (JArr [JNum 1])
    ∧ (json_get "questionnaires" JNull <$> snapshot 1 db1)
      = Some (JArr [JStr "How many users?"]))
    as (db2 & Hms & Hgone & Hsource & Hs & Hq).
  { apply finalize_inr in E as (r & o & Hr & _ & _ & ->).
    vm_compute in Hr. injection Hr as <-.
    eexists. split; [vm_compute; reflexivity|].
    repeat split; vm_compute; reflexivity. }
  destruct (finalize_snapshot_is_frozen Sample.stocked 100 1 db1 E)
    as (r & doc & ss & bs & aps & _ & _ & Hdoc & Hrest).
  destruct Hrest as (_ & _ & _ & _ & _ & _ & _ & _ & _ & _ & _ & _ & _ & _ & Hfrozen).
  rewrite Hdoc in Hs, Hq. cbn in Hs, Hq.
  exists 1, db1, db2, doc. repeat split; try done.
  - congruence.
  - congruence.
  - by apply (Hfrozen 100 _ db2 Hms).
Defined.

(** A proposal whose services are changed has other services than its
    snapshot, which keeps those of the call. *)
Example snapshot_survives_service_change :
  ∃ f db1 db2 doc,
    finalize 100 Sample.stocked = inr (f, db1)
    ∧ mutate_all 100 [AddService 2; RemoveService 1] db1 = inr db2
    ∧ services_of 100 db1 = [1]
    ∧ services_of 100 db2 = [2]
    ∧ snapshot f db2 = Some doc
    ∧ json_get "services" JNull doc = JArr [JNum 1].
Proof.
  do 4 eexists. split; [vm_compute; reflexivity|].
  split; [vm_compute; reflexivity|].
  split; [vm_compute; reflexivity|].
  split; [vm_compute; reflexivity|].
  split; [vm_compute; reflexivity|].
  vm_compute. reflexivity.
Qed.

(** A service that is not stored cannot be joined to a proposal, nor can a
    service be joined to a proposal that is not stored. *)
Example add_service_needs_stored_rows :
  mutate 100 (AddService 2) Sample.db = inl (IntegrityError "service_id")
  ∧ mutate 101 (AddService 1) Sample.db = inl (IntegrityError "generated_rfp_id")
  ∧ mutate 100 (AddArea 11 ProjectGeneratedRFPArea.LOW) Sample.db
    = inl (IntegrityError "functional_area_id").
Proof. repeat split; vm_compute; reflexivity. Qed.

(** The title that [__str__] reads from a snapshot made by [finalize] is
    the name of the proposal. *)
Lemma finalize_title p db f db1 row :
  finalize p db = inr (f, db1) →
  finalized_rfps db1 !! f = Some row →
  ∃ r, generated_rfps db !! p = Some r
       ∧ FinalizedRFP.title row = JStr (GeneratedRFP.rfp_name r).
Proof.
  intros (r & o & Hr & _ & -> & ->)%finalize_inr.
  cbn [finalized_rfps set_finalized_rfps]. rewrite lookup_insert_eq.
  intros [= <-]. exists r. split; [done|]. reflexivity.
Qed.
End SnapshotFacts.

(* ===================================================================== *)
(** * More on the role / groups synchronisation                         *)
(* ===================================================================== *)
Section SyncBehaviour.
Import Auth.
Context (set_iter : gset Z → list Z).
Hypothesis set_iter_elem : ∀ s x, x ∈ set_iter s ↔ x ∈ s.

Lemma head_set_iter_nonempty (s : gset Z) :
  s ≠ ∅ → ∃ x, head (set_iter s) = Some x ∧ x ∈ s.
Proof.
  intros Hs. destruct (set_iter s) as [|x l] eqn:E.
  - by apply (set_iter_nil set_iter set_iter_elem) in E.
  - exists x. split; [done|]. apply set_iter_elem. rewrite E. left.
Qed.

Lemma sync_groups_post_world a ps w :
  a ∈ [post_add; post_remove; post_clear] →
  role_id (instance w) = role (stored w) →
  _sync_groups_to_role set_iter a ps w
  = mkWorld (mkStored (if truthy ps then head (set_iter (default ∅ ps))
                       else first_by_pk (groups (stored w)))
                      (groups (stored w)))
            (instance w).
Proof.
  intros Ha Hsync.
  rewrite <- (sync_groups_post_in_step set_iter a ps w Ha Hsync).
  rewrite <- (sync_groups_instance set_iter a ps w).
  by destruct (_sync_groups_to_role set_iter a ps w).
Qed.

Lemma groups_remove_in_step n objs w :
  role_id (instance w) = role (stored w) → objs ≠ [] →
  groups_remove (send set_iter (S n)) objs w
  = Some (mkWorld (mkStored (head (set_iter (list_to_set objs)))
                            (groups (stored w) ∖ list_to_set objs))
                  (instance w)).
Proof.
  intros Hsync Hobjs. destruct objs as [|o objs]; [done|].
  unfold groups_remove. rewrite !send_m2m_changed.
  cbn [mbind option_bind]. rewrite send_m2m_changed.
  rewrite (sync_groups_pre set_iter pre_remove) by compute_done.
  rewrite sync_groups_post_world by (done || compute_done).
  cbn [truthy default with_groups stored groups instance].
  rewrite bool_decide_true; [done|]. set_solver.
Qed.

Lemma groups_add_in_step n objs w :
  role_id (instance w) = role (stored w) → objs ≠ [] →
  groups_add (send set_iter (S n)) objs w
  = Some (mkWorld
            (mkStored
               (if bool_decide (list_to_set objs ∖ groups (stored w) ≠ ∅)
                then head (set_iter (list_to_set objs ∖ groups (stored w)))
                else first_by_pk (groups (stored w)
                                  ∪ list_to_set objs ∖ groups (stored w)))
               (groups (stored w) ∪ list_to_set objs ∖ groups (stored w)))
            (instance w)).
Proof.
  intros Hsync Hobjs. destruct objs as [|o objs]; [done|].
  unfold groups_add. rewrite !send_m2m_changed.
  cbn [mbind option_bind]. rewrite send_m2m_changed.
  rewrite (sync_groups_pre set_iter pre_add) by compute_done.
  rewrite sync_groups_post_world by (done || compute_done).
  reflexivity.
Qed.

(** X1. After a removal through an object in step with its row the stored role
    is one of the keys that were asked to be removed, so it is not one of
    the stored groups. *)
Theorem remove_promotes_a_removed_key n objs w w' :
  role_id (instance w) = role (stored w) →
  objs ≠ [] →
  exec set_iter (S n) (RemoveGroups objs) w = Some w' →
  groups (stored w') = groups (stored w) ∖ list_to_set objs
  ∧ (∃ x, role (stored w') = Some x ∧ x ∈ objs)
  ∧ ¬ role_in_groups (stored w').
Proof.
  intros Hsync Hobjs. unfold exec.
  rewrite groups_remove_in_step by done. intros [= <-].
  cbn [stored groups role].
  destruct (head_set_iter_nonempty (list_to_set objs)) as (x & Hx & Hin).
  { destruct objs; [done|set_solver]. }
  split; [done|]. split.
  - exists x. split; [done|]. by apply elem_of_list_to_set in Hin.
  - unfold role_in_groups. cbn [role groups]. rewrite Hx. set_solver.
Qed.

(** X2. Adding groups of which at least one is new promotes one of the new
    ones to role. *)
Theorem add_promotes_a_new_group n objs w w' :
  role_id (instance w) = role (stored w) →
  (∃ g, g ∈ objs ∧ g ∉ groups (stored w)) →
  exec set_iter (S n) (AddGroups objs) w = Some w' →
  groups (stored w') = groups (stored w) ∪ list_to_set objs
  ∧ ∃ x, role (stored w') = Some x ∧ x ∈ objs ∧ x ∉ groups (stored w).
Proof.
  intros Hsync (g & Hg & Hnew). unfold exec.
  rewrite groups_add_in_step by (done || by destruct objs; [inversion Hg|]).
  intros [= <-]. cbn [stored groups role].
  set (missing := list_to_set objs ∖ groups (stored w)).
  assert (missing ≠ ∅) as Hm by (subst missing; set_solver).
  split.
  - apply set_eq. intros x. subst missing.
    destruct (decide (x ∈ groups (stored w))); set_solver.
  - rewrite bool_decide_true by done.
    destruct (head_set_iter_nonempty missing Hm) as (x & -> & Hx).
    exists x. subst missing. set_solver.
Qed.

(** X3. Adding only groups the user already has leaves the groups as they are
    and makes the lowest of them the role. *)
Theorem add_of_members_promotes_the_lowest n objs w w' :
  role_id (instance w) = role (stored w) →
  objs ≠ [] →
  (∀ g, g ∈ objs → g ∈ groups (stored w)) →
  exec set_iter (S n) (AddGroups objs) w = Some w' →
  groups (stored w') = groups (stored w)
  ∧ ∃ x, role (stored w') = Some x
         ∧ x ∈ groups (stored w)
         ∧ ∀ y, y ∈ groups (stored w) → x ≤ y.
Proof.
  intros Hsync Hobjs Hall. unfold exec.
  rewrite groups_add_in_step by done. intros [= <-].
  cbn [stored groups role].
  assert (list_to_set objs ∖ groups (stored w) = (∅ : gset Z)) as -> by set_solver.
  rewrite bool_decide_false by (intros Hne; by apply Hne).
  rewrite (right_id_L ∅ (∪)). split; [done|].
  destruct (first_by_pk (groups (stored w))) as [x|] eqn:E.
  - exists x. split; [done|]. split; [by apply first_by_pk_elem|].
    intros y Hy. by eapply first_by_pk_least.
  - apply first_by_pk_None in E. destruct objs as [|o objs]; [done|].
    specialize (Hall o ltac:(left)). set_solver.
Qed.

(** *** What the group operations do to the membership and to the object *)

Lemma groups_remove_frame n objs w w' :
  groups_remove (send set_iter (S n)) objs w = Some w' →
  instance w' = instance w
  ∧ groups (stored w') = groups (stored w) ∖ list_to_set objs.
Proof.
  intros E. split; [|by eapply groups_remove_groups].
  destruct objs as [|o objs]; [by injection E as <-|].
  unfold groups_remove in E. rewrite !send_m2m_changed in E.
  cbn [mbind option_bind] in E. rewrite send_m2m_changed in E.
  injection E as <-. by rewrite !sync_groups_instance.
Qed.

Lemma groups_add_frame n objs w w' :
  groups_add (send set_iter (S n)) objs w = Some w' →
  instance w' = instance w
  ∧ groups (stored w') = groups (stored w) ∪ list_to_set objs.
Proof.
  intros E. split; [|by eapply groups_add_groups].
  destruct objs as [|o objs]; [by injection E as <-|].
  unfold groups_add in E. rewrite !send_m2m_changed in E.
  cbn [mbind option_bind] in E. rewrite send_m2m_changed in E.
  injection E as <-. by rewrite !sync_groups_instance.
Qed.

Lemma groups_clear_frame n w w' :
  groups_clear (send set_iter (S n)) w = Some w' →
  instance w' = instance w ∧ groups (stored w') = ∅.
Proof.
  unfold groups_clear. rewrite !send_m2m_changed.
  cbn [mbind option_bind]. rewrite send_m2m_changed. intros [= <-].
  by rewrite !sync_groups_instance, !sync_groups_stored_groups.
Qed.

(** The loop of [groups.set]: the stored keys that are not requested are
    to be dropped; the objects to add are requested ones and include all
    that are not stored. *)
Lemma split_objs_spec (g : gset Z) objs old_ids new_objs :
  split_objs g objs = (old_ids, new_objs) →
  old_ids = g ∖ list_to_set objs
  ∧ (∀ x, x ∈ new_objs → x ∈ objs)
  ∧ (∀ x, x ∈ objs → x ∉ g → x ∈ new_objs).
Proof.
  unfold split_objs.
  assert (∀ (o0 : gset Z) (n0 : list Z) o n,
    foldl (λ '(old_ids, new_objs) obj,
             if bool_decide (obj ∈ old_ids)
             then (old_ids ∖ {[obj]}, new_objs)
             else (old_ids, new_objs ++ [obj])) (o0, n0) objs = (o, n) →
    o = o0 ∖ list_to_set objs
    ∧ (∀ x, x ∈ n → x ∈ n0 ∨ x ∈ objs)
    ∧ (∀ x, x ∈ n0 ∨ (x ∈ objs ∧ x ∉ o0) → x ∈ n)) as Hgen.
  { induction objs as [|y l IH]; intros o0 n0 o n; cbn [foldl].
    - intros [= <- <-]. split; [set_solver|]. split; [tauto|].
      intros x [?|[?%elem_of_nil _]]; done.
    - case_bool_decide as Hy; intros (-> & Hsub & Hsup)%IH.
      + split; [set_solver|]. split.
        * intros x Hx. destruct (Hsub x Hx); [by left|right; by right].
        * intros x [Hx|[Hx Hnot]]; apply Hsup; [by left|].
          apply elem_of_cons in Hx as [->|Hx]; [done|].
          right. split; [done|]. set_solver.
      + split; [set_solver|]. split.
        * intros x Hx. destruct (Hsub x Hx) as [Hx'|Hx']; [|right; by right].
          apply elem_of_app in Hx' as [?|Hx']; [by left|].
          right. apply list_elem_of_singleton in Hx' as ->. left.
        * intros x [Hx|[Hx Hnot]]; apply Hsup.
          -- left. apply elem_of_app. by left.
          -- apply elem_of_cons in Hx as [->|Hx].
             ++ left. apply elem_of_app. right. left.
             ++ right. by split. }
  intros (-> & Hsub & Hsup)%Hgen. split; [done|]. split.
  - intros x Hx. destruct (Hsub x Hx) as [?%elem_of_nil|]; done.
  - intros x Hx Hnot. apply Hsup. right. by split.
Qed.

Lemma groups_set_frame n objs w w' :
  groups_set set_iter (send set_iter (S n)) objs w = Some w' →
  instance w' = instance w ∧ groups (stored w') = list_to_set objs.
Proof.
  unfold groups_set.
  destruct (split_objs _ _) as [old_ids new_objs] eqn:Es.
  apply split_objs_spec in Es as (-> & Hsub & Hsup).
  destruct (groups_remove _ _ _) as [w1|] eqn:E1; [|done].
  apply groups_remove_frame in E1 as [Hi1 Hg1].
  rewrite (list_to_set_iter set_iter set_iter_elem) in Hg1.
  cbn [mbind option_bind]. intros [Hi2 Hg2]%groups_add_frame.
  split; [congruence|]. rewrite Hg2, Hg1.
  apply set_eq. intros x. rewrite elem_of_union, !elem_of_difference,
    !elem_of_list_to_set.
  destruct (decide (x ∈ groups (stored w))), (decide (x ∈ objs)); naive_solver.
Qed.

(** X4. A group operation changes the stored membership exactly as asked and
    does not touch the object it is called on. *)
Theorem group_operations_are_exact n op w w' :
  exec set_iter (S n) op w = Some w' →
  match op with
  | SetRole _ => True
  | AddGroups objs =>
      instance w' = instance w
      ∧ groups (stored w') = groups (stored w) ∪ list_to_set objs
  | RemoveGroups objs =>
      instance w' = instance w
      ∧ groups (stored w') = groups (stored w) ∖ list_to_set objs
  | SetGroups objs =>
      instance w' = instance w ∧ groups (stored w') = list_to_set objs
  | ClearGroups => instance w' = instance w ∧ groups (stored w') = ∅
  end.
Proof.
  destruct op; unfold exec; [done|..].
  - apply groups_add_frame.
  - apply groups_remove_frame.
  - apply groups_set_frame.
  - apply groups_clear_frame.
Qed.

(** *** Saving a role *)

Lemma head_set_iter_singleton r : head (set_iter {[r]}) = Some r.
Proof.
  destruct (head_set_iter_nonempty {[r]}) as (x & Hx & Hin); [set_solver|].
  rewrite Hx. f_equal. set_solver.
Qed.

Lemma set_iter_empty : set_iter ∅ = [].
Proof.
  destruct (set_iter ∅) as [|x l] eqn:E; [done|].
  assert (x ∈ set_iter ∅) as Hx by (rewrite E; left).
  apply set_iter_elem in Hx. set_solver.
Qed.

(** The world in which the [post_save] receiver runs. *)
Lemma save_role_unfold n r w :
  r ≠ 0 →
  ∃ w2, groups (stored w2) = groups (stored w)
        ∧ role (stored w2) = Some r
        ∧ role_id (instance w2) = Some r
        ∧ exec set_iter (S (S n)) (SetRole (Some r)) w
          = groups_set set_iter (send set_iter (S n)) [r] w2
            ≫= λ w1, Some (mkWorld (stored w1)
                                   (mkInstance (role_id (instance w1)) None)).
Proof.
  intros Hr.
  exists (write_row (_remember_desired_role (assign_role (Some r) w))).
  repeat split. unfold exec. rewrite save_unfold.
  unfold _sync_role_to_groups. cbn [default id _desired_role_id instance
    _remember_desired_role write_row assign_role role_id].
  by rewrite bool_decide_true.
Qed.

(** X5. The first role of a user, or the role it already has: the row ends
    with that role and with it as the only group. *)
Theorem save_first_role n r w w' :
  r ≠ 0 →
  groups (stored w) ⊆ {[r]} →
  exec set_iter (S (S n)) (SetRole (Some r)) w = Some w' →
  stored w' = mkStored (Some r) {[r]}.
Proof.
  intros Hr Hg.
  destruct (save_role_unfold n r w Hr) as (w2 & Hg2 & Hr2 & Hi2 & ->).
  rewrite <- Hg2 in Hg. clear Hg2.
  unfold groups_set. rewrite split_objs_singleton.
  case_bool_decide as Hin.
  - assert (groups (stored w2) ∖ {[r]} = (∅ : gset Z)) as -> by set_solver.
    rewrite set_iter_empty. cbn. intros [= <-]. cbn.
    destruct (stored w2) as [ro g]. cbn in *. subst ro. f_equal. set_solver.
  - assert (groups (stored w2) = ∅) as Hempty by set_solver.
    rewrite Hempty, set_iter_empty. cbn [groups_remove mbind option_bind].
    rewrite groups_add_in_step by (done || congruence).
    cbn [mbind option_bind stored groups]. intros [= <-]. cbn [stored].
    rewrite Hempty.
    replace (({[r]} ∪ ∅) ∖ ∅ : gset Z) with ({[r]} : gset Z) by set_solver.
    rewrite bool_decide_true by set_solver.
    rewrite head_set_iter_singleton. f_equal. set_solver.
Qed.

(** X6. A change of role on a user who has another group: the groups become
    the new role alone, but the role that ends up stored is one of the
    groups that were dropped, not the role that was saved. *)
Theorem save_changed_role_stores_a_dropped_group n r w w' :
  r ≠ 0 →
  groups (stored w) ∖ {[r]} ≠ ∅ →
  exec set_iter (S (S n)) (SetRole (Some r)) w = Some w' →
  ∃ x, stored w' = mkStored (Some x) {[r]}
       ∧ x ∈ groups (stored w) ∧ x ≠ r.
Proof.
  intros Hr Hother.
  destruct (save_role_unfold n r w Hr) as (w2 & Hg2 & Hr2 & Hi2 & ->).
  rewrite <- Hg2 in Hother |- *. clear Hg2.
  assert (role_id (instance w2) = role (stored w2)) as Hstep by congruence.
  destruct (head_set_iter_nonempty _ Hother) as (x & Hx & Hxin).
  assert (set_iter (groups (stored w2) ∖ {[r]}) ≠ []) as Hne
    by (intros E; by rewrite E in Hx).
  apply elem_of_difference in Hxin as [Hxg Hxr].
  rewrite not_elem_of_singleton in Hxr.
  unfold groups_set. rewrite split_objs_singleton.
  case_bool_decide as Hin.
  - rewrite groups_remove_in_step by done.
    cbn [mbind option_bind groups_add stored groups].
    rewrite (list_to_set_iter set_iter set_iter_elem), Hx.
    intros [= <-]. exists x. cbn [stored]. split; [|done].
    f_equal. apply set_eq. intros y. rewrite !elem_of_difference.
    rewrite elem_of_singleton.
    destruct (decide (y = r)) as [->|]; naive_solver.
  - assert (groups (stored w2) ∖ {[r]} = groups (stored w2)) as Hsame.
    { apply set_eq. intros y. rewrite elem_of_difference, elem_of_singleton.
      naive_solver. }
    rewrite Hsame in Hx, Hne.
    rewrite groups_remove_in_step by done.
    cbn [mbind option_bind stored groups].
    rewrite (list_to_set_iter set_iter set_iter_elem), Hx.
    rewrite (difference_diag_L (groups (stored w2))).
    unfold groups_add. rewrite !send_m2m_changed.
    cbn [mbind option_bind]. rewrite send_m2m_changed.
    rewrite (sync_groups_pre set_iter pre_add) by compute_done.
    cbn [with_groups stored groups role instance].
    replace (list_to_set [r] ∖ ∅ : gset Z) with ({[r]} : gset Z)
      by (cbn; apply set_eq; intros y; set_solver).
    rewrite (left_id_L ∅ (∪)).
    unfold _sync_groups_to_role.
    rewrite bool_decide_true by compute_done.
    cbn [truthy default id instance role_id with_groups stored groups].
    rewrite (bool_decide_true (({[r]} : gset Z) ≠ ∅)) by set_solver.
    rewrite head_set_iter_singleton, Hi2.
    rewrite bool_decide_false by (intros Hne'; by apply Hne').
    cbn. intros [= <-]. exists x. by cbn.
Qed.
End SyncBehaviour.

Section SyncBehaviourWitnesses.
Import Auth.

(** The order of [elements] is one possible iteration order. *)
Lemma elements_enumerates (s : gset Z) x : x ∈ elements s ↔ x ∈ s.
Proof. apply elem_of_elements. Qed.

(** Removing groups 2 and 3 from a user with role 1 and groups {1, 2}. *)
Lemma remove_promotes_a_removed_key_witness :
  let w := load (mkStored (Some 1) {[1; 2]}) in
  ∃ w', exec elements 1 (RemoveGroups [2; 3]) w = Some w'
      ∧ groups (stored w') = groups (stored w) ∖ list_to_set [2; 3]
      ∧ (∃ x, role (stored w') = Some x ∧ x ∈ [2; 3])
      ∧ ¬ role_in_groups (stored w').
Proof.
  intros w. eexists. split; [vm_compute; reflexivity|].
  apply (remove_promotes_a_removed_key elements elements_enumerates 0 [2; 3] w);
    [reflexivity | done | vm_compute; reflexivity].
Defined.

(** Adding groups 1 and 4 to a user with role 1 and groups {1, 2}. *)
Lemma add_promotes_a_new_group_witness :
  let w := load (mkStored (Some 1) {[1; 2]}) in
  ∃ w', exec elements 1 (AddGroups [1; 4]) w = Some w'
      ∧ groups (stored w') = groups (stored w) ∪ list_to_set [1; 4]
      ∧ ∃ x, role (stored w') = Some x ∧ x ∈ [1; 4] ∧ x ∉ groups (stored w).
Proof.
  intros w. eexists. split; [vm_compute; reflexivity|].
  apply (add_promotes_a_new_group elements elements_enumerates 0 [1; 4] w);
    [reflexivity | | vm_compute; reflexivity].
  exists 4. split; [set_solver|]. cbn. set_solver.
Defined.

(** Adding group 5 again to a user with role 5 and groups {3, 5}. *)
Lemma add_of_members_promotes_the_lowest_witness :
  let w := load (mkStored (Some 5) {[3; 5]}) in
  ∃ w', exec elements 1 (AddGroups [5]) w = Some w'
      ∧ groups (stored w') = groups (stored w)
      ∧ ∃ x, role (stored w') = Some x
             ∧ x ∈ groups (stored w)
             ∧ ∀ y, y ∈ groups (stored w) → x ≤ y.
Proof.
  intros w. eexists. split; [vm_compute; reflexivity|].
  apply (add_of_members_promotes_the_lowest elements elements_enumerates 0 [5] w);
    [reflexivity | done | | vm_compute; reflexivity].
  intros g ->%list_elem_of_singleton. cbn. set_solver.
Defined.

(** Setting the groups of a user to 4, 2 and 4 again. *)
Lemma group_operations_are_exact_witness :
  let w := load (mkStored (Some 1) {[1; 2]}) in
  ∃ w', exec elements 1 (SetGroups [4; 2; 4]) w = Some w'
      ∧ instance w' = instance w
      ∧ groups (stored w') = list_to_set [4; 2; 4].
Proof.
  intros w. eexists. split; [vm_compute; reflexivity|].
  apply (group_operations_are_exact elements elements_enumerates 0
           (SetGroups [4; 2; 4]) w).
  vm_compute. reflexivity.
Defined.

(** Role 7 for a user without role and groups. *)
Lemma save_first_role_witness :
  ∃ w', exec elements 2 (SetRole (Some 7)) (load (mkStored None ∅)) = Some w'
      ∧ stored w' = mkStored (Some 7) {[7]}.
Proof.
  eexists. split; [vm_compute; reflexivity|].
  apply (save_first_role elements elements_enumerates 0 7 (load (mkStored None ∅)));
    [done | cbn; set_solver | vm_compute; reflexivity].
Defined.

(** Role 7 for a user with role 1 and groups {1, 7}. *)
Lemma save_changed_role_stores_a_dropped_group_witness :
  let w := load (mkStored (Some 1) {[1; 7]}) in
  ∃ w', exec elements 2 (SetRole (Some 7)) w = Some w'
      ∧ ∃ x, stored w' = mkStored (Some x) {[7]}
             ∧ x ∈ groups (stored w) ∧ x ≠ 7.
Proof.
  intros w. eexists. split; [vm_compute; reflexivity|].
  apply (save_changed_role_stores_a_dropped_group elements elements_enumerates
           0 7 w);
    [done | | vm_compute; reflexivity].
  cbn. intros E. assert (1 ∈ ({[1; 7]} ∖ {[7]} : gset Z)) as H by set_solver.
  rewrite E in H. set_solver.
Defined.

(** Clearing the groups of a freshly loaded user with role 1. *)
Lemma clear_groups_in_step_witness :
  ∃ w', exec elements 1 ClearGroups (load (mkStored (Some 1) {[1; 2]})) = Some w'
      ∧ stored w' = mkStored None ∅.
Proof.
  apply (clear_groups_in_step elements 0 (load (mkStored (Some 1) {[1; 2]}))).
  reflexivity.
Defined.

(** Adding group 2 to a freshly loaded user with role 1 and group 1. *)
Lemma add_groups_in_step_witness :
  ∃ w', exec elements 1 (AddGroups [2]) (load (mkStored (Some 1) {[1]})) = Some w'
      ∧ role_in_groups (stored w').
Proof.
  eexists. split; [vm_compute; reflexivity|].
  apply (add_groups_in_step elements elements_enumerates 0 [2]
           (load (mkStored (Some 1) {[1]})));
    [reflexivity | compute_done | vm_compute; reflexivity].
Defined.
End SyncBehaviourWitnesses.

(* ===================================================================== *)
(** * Invites and business cycle assignments                            *)
(* ===================================================================== *)
Section InviteFacts.
Import Accounts.

(** X9. An invite is valid on an interval of instants that ends before
    [expires_at]: valid now, it was valid at every earlier instant; it is
    never valid at the instant it expires or later. *)
Theorem invite_validity_window (inv : Invite.t) (now : Z) :
  (∀ earlier, earlier ≤ now →
     Invite.is_valid now inv = true → Invite.is_valid earlier inv = true)
  ∧ (Invite.expires_at inv ≤ now → Invite.is_valid now inv = false)
  ∧ (Invite.is_valid now inv = true ↔
       Invite.is_active inv = true ∧ now < Invite.expires_at inv).
Proof.
  assert (∀ t, Invite.is_valid t inv = true ↔
               Invite.is_active inv = true ∧ t < Invite.expires_at inv) as Hiff.
  { intros t. unfold Invite.is_valid.
    rewrite andb_true_iff, bool_decide_eq_true. split; intros [? ?]; split;
      (done || lia). }
  split; [|split].
  - intros earlier Hle [Ha Hn]%Hiff. apply Hiff. split; [done|lia].
  - intros Hle. apply not_true_is_false. intros [_ Hn]%Hiff. lia.
  - apply Hiff.
Qed.

(** An invite that expires at instant 100. *)
Lemma invite_validity_window_witness :
  let inv := Invite.mk 1 "a@b.c" "h" true 100 in
  Invite.is_valid 40 inv = true ∧ Invite.is_valid 100 inv = false.
Proof.
  intros inv.
  destruct (invite_validity_window inv 99) as (Hearlier & _ & _).
  destruct (invite_validity_window inv 100) as (_ & Hexpired & _).
  split.
  - apply Hearlier; [lia | reflexivity].
  - apply Hexpired. cbn. lia.
Defined.

(** X10. Deactivation is permanent and writes one column: afterwards the invite
    is invalid at every instant, read from the object or loaded again from
    its row; the other stored columns are the ones stored before, whatever
    the object held; deactivating again changes nothing. *)
Theorem deactivate_is_permanent (w : Invite.World) (now : Z) :
  Invite.is_valid now (Invite.self (Invite.deactivate w)) = false
  ∧ Invite.is_valid now
      (Invite.self (Invite.load (Invite.stored (Invite.deactivate w)))) = false
  ∧ Invite.stored (Invite.deactivate w)
    = Invite.mk (Invite.inviter (Invite.stored w)) (Invite.email (Invite.stored w))
        (Invite.hashed_token (Invite.stored w)) false
        (Invite.expires_at (Invite.stored w))
  ∧ Invite.deactivate (Invite.deactivate w) = Invite.deactivate w.
Proof. repeat split. Qed.
End InviteFacts.

Section AssignmentFacts.
Import Accounts.
Import UserBusinessCycleAssignment.

Lemma assignment_create_inr r (table table' : gmap Z t) :
  create r table = inr table' ↔
    ¬ conflicts r table ∧ table' = <[Project.next_pk table := r]> table.
Proof. unfold create. case_decide; naive_solver. Qed.

(** X11. The constraint keeps the promise of the docstring for rows with both
    keys: a table in which every pair (organization, business cycle) occurs
    once still is such a table after a successful [create]. *)
Theorem create_keeps_single_assignment r (table table' : gmap Z t) :
  single_assignment table →
  create r table = inr table' →
  single_assignment table'.
Proof.
  intros Hinv [Hfree ->]%assignment_create_inr.
  pose proof (next_pk_fresh table) as Hk.
  intros k1 k2 r1 r2 H1 H2 Ho Hb Eo Eb.
  apply lookup_insert_Some in H1 as [[<- <-]|[Hk1 H1]];
    apply lookup_insert_Some in H2 as [[<- <-]|[Hk2 H2]]; try done.
  - exfalso. apply Hfree. split; [done|]. split; [done|].
    exists k2, r2. by split.
  - exfalso. apply Hfree. unfold conflicts. rewrite <- Eo, <- Eb.
    split; [done|]. split; [done|]. exists k1, r1. by split.
  - by eapply Hinv.
Qed.

(** A second organization gets the business cycle of the first. *)
Lemma create_keeps_single_assignment_witness :
  ∃ table', create (mk (Some 2) (Some 1) (Some 9))
                   {[1 := mk (Some 1) (Some 1) (Some 8)]} = inr table'
            ∧ single_assignment table'.
Proof.
  eexists. split; [vm_compute; reflexivity|].
  apply (create_keeps_single_assignment (mk (Some 2) (Some 1) (Some 9))
           {[1 := mk (Some 1) (Some 1) (Some 8)]});
    [|vm_compute; reflexivity].
  intros k1 k2 r1 r2 [<- <-]%lookup_singleton_Some [<- <-]%lookup_singleton_Some.
  done.
Defined.

(** X12. A second assignment of a business cycle within the same organization is
    refused with the name of the constraint, whoever the users are; but an
    assignment in which the organization or the business cycle is null is
    always accepted, also when the table holds the same pair already. *)
Theorem assignment_conflict_and_null_keys r r' (table table1 : gmap Z t) :
  create r table = inr table1 →
  (is_Some (organization r) → is_Some (business_cycle r) →
   organization r' = organization r → business_cycle r' = business_cycle r →
   create r' table1 = inl (Project.IntegrityError "unique_org_business_cycle_assignment"))
  ∧ (organization r' = None ∨ business_cycle r' = None →
     ∃ table2, create r' table1 = inr table2
               ∧ table2 !! Project.next_pk table = Some r
               ∧ table2 !! Project.next_pk table1 = Some r').
Proof.
  intros [Hfree ->]%assignment_create_inr.
  pose proof (next_pk_fresh table) as Hk.
  split.
  - intros Ho Hb Eo Eb. unfold create. rewrite decide_True; [done|].
    unfold conflicts. rewrite Eo, Eb. split; [done|]. split; [done|].
    exists (Project.next_pk table), r. by rewrite lookup_insert_eq.
  - intros Hnull. eexists. split.
    + apply assignment_create_inr. split; [|done].
      intros ([o Ho] & [b Hb] & _). destruct Hnull; congruence.
    + assert (Project.next_pk table
              ≠ Project.next_pk (<[Project.next_pk table := r]> table)) as Hne.
      { intros E.
        pose proof (next_pk_fresh (<[Project.next_pk table := r]> table)) as Hk'.
        rewrite <- E, lookup_insert_eq in Hk'. done. }
      by rewrite lookup_insert_ne, !lookup_insert_eq.
Qed.

(** Business cycle 8 in organization 1, then again, then without cycle. *)
Lemma assignment_conflict_and_null_keys_witness :
  let first := mk (Some 1) (Some 1) (Some 8) in
  ∃ table1, create first ∅ = inr table1
    ∧ create (mk (Some 2) (Some 1) (Some 8)) table1
      = inl (Project.IntegrityError "unique_org_business_cycle_assignment")
    ∧ ∃ table2, create (mk (Some 2) None (Some 8)) table1 = inr table2.
Proof.
  intros first.
  assert (create first ∅ = inr (<[1 := first]> ∅)) as E
    by (vm_compute; reflexivity).
  eexists. split; [exact E|].
  pose proof (assignment_conflict_and_null_keys first
                (mk (Some 2) (Some 1) (Some 8)) ∅ _ E) as (Hdup & _).
  pose proof (assignment_conflict_and_null_keys first
                (mk (Some 2) None (Some 8)) ∅ _ E) as (_ & Hnull).
  split.
  - apply Hdup; by eauto.
  - destruct Hnull as (table2 & Htable2 & _); [by left|]. by exists table2.
Defined.
End AssignmentFacts.

(* ===================================================================== *)
(** * More on visibility and on the catalogue tables                    *)
(* ===================================================================== *)
Section VisibilityBehaviour.
Import Project.
Context {M : Type} `{TenantOwnedMixin M}.

Lemma filter_twice {A} (P : A → Prop) `{!∀ x, Decision (P x)} (l : list A) :
  filter P (filter P l) = filter P l.
Proof.
  induction l as [|x l IH]; [done|].
  rewrite filter_cons. case_decide as HP; [|done].
  rewrite filter_cons, decide_True by done. by rewrite IH.
Qed.

Lemma filter_swap {A} (P Q : A → Prop)
    `{!∀ x, Decision (P x)} `{!∀ x, Decision (Q x)} (l : list A) :
  filter P (filter Q l) = filter Q (filter P l).
Proof.
  induction l as [|x l IH]; [done|].
  rewrite !filter_cons.
  destruct (decide (Q x)), (decide (P x));
    rewrite ?filter_cons, ?decide_True, ?decide_False by done; by rewrite ?IH.
Qed.

(** X13. Tenants are isolated: a row that two different tenants both see,
    in whatever collections, is a global row. *)
Theorem visible_to_isolates_tenants
    (hb1 hb2 : option (OrgVisibilityMixin M)) (o1 o2 : Z) (qs1 qs2 : list M) r :
  o1 ≠ o2 →
  r ∈ visible_to hb1 (Some o1) qs1 →
  r ∈ visible_to hb2 (Some o2) qs2 →
  organization r = None.
Proof.
  intros Hne (_ & [?|E1] & _)%visible_to_org_spec
             (_ & [?|E2] & _)%visible_to_org_spec; try done.
  congruence.
Qed.

(** X14. [visible_to] is a filter: asking twice gives nothing new, the rows of
    two collections are judged one by one, and a further filter may be
    applied before or after it. *)
Theorem visible_to_composes (hb : option (OrgVisibilityMixin M))
    (org : option Z) (qs qs' : list M)
    (P : M → Prop) `{!∀ x, Decision (P x)} :
  visible_to hb org (visible_to hb org qs) = visible_to hb org qs
  ∧ visible_to hb org (qs ++ qs') = visible_to hb org qs ++ visible_to hb org qs'
  ∧ visible_to hb org (filter P qs) = filter P (visible_to hb org qs).
Proof.
  assert (∀ (A B : M → Prop) `{!∀ x, Decision (A x)} `{!∀ x, Decision (B x)}
            (l : list M),
            filter B (filter A (filter B (filter A l))) = filter B (filter A l))
    as Htwice.
  { intros A B ?? l. rewrite (filter_swap A B (filter A l)).
    by rewrite (filter_twice A), (filter_twice B). }
  unfold visible_to, exclude_blocked_for.
  destruct hb as [OV|], org as [o|]; (split; [|split]).
  all: rewrite ?filter_app; try done.
  all: try apply Htwice; try apply filter_twice.
  all: try (by rewrite (filter_swap _ P), (filter_swap _ P)).
  all: by rewrite (filter_swap _ P).
Qed.

(** X15. A block list only hides rows; and on a model without block list what is
    shown without organization is shown to every tenant. *)
Theorem visible_to_only_narrows (OV : OrgVisibilityMixin M)
    (org : option Z) (o : Z) (qs : list M) :
  sublist (visible_to (Some OV) org qs) (visible_to None org qs)
  ∧ sublist (visible_to None None qs) (visible_to None (Some o) qs).
Proof.
  split.
  - unfold visible_to, exclude_blocked_for. destruct org; apply sublist_filter.
  - unfold visible_to. induction qs as [|r qs IH]; [done|].
    rewrite !filter_cons.
    destruct (decide (organization r = None)) as [E|E].
    + rewrite decide_True by by left. by apply sublist_skip.
    + case_decide; [by apply sublist_cons|done].
Qed.
End VisibilityBehaviour.

Section VisibilityBehaviourWitness.
Import Project.

(** The sample industry is seen by tenants 1 and 2. *)
Lemma visible_to_isolates_tenants_witness :
  organization Sample.retail = None.
Proof.
  apply (visible_to_isolates_tenants (Some Industry_visibility) None 1 2
           [Sample.retail] [Sample.retail] Sample.retail); [done|left|left].
Defined.
End VisibilityBehaviourWitness.

Section CatalogueBehaviour.
Import Project Integrity.
Context {M : Type} `{TenantOwnedMixin M} `{UniqueTenantName M}.

(** X17. The constraint as an invariant: a table in which no tenant has a
    natural key twice still is such a table after a successful [create]. *)
Theorem create_keeps_tenant_unique (r : M) (t t' : gmap Z M) :
  tenant_unique t →
  create r t = inr t' →
  tenant_unique t'.
Proof.
  intros Hinv [Hfree ->]%create_inr.
  pose proof (next_pk_fresh t) as Hk.
  intros k1 k2 r1 r2 H1 H2 Ho Eo En.
  apply lookup_insert_Some in H1 as [[<- <-]|[Hk1 H1]];
    apply lookup_insert_Some in H2 as [[<- <-]|[Hk2 H2]]; try done.
  - exfalso. apply Hfree. split; [done|]. exists k2, r2. by split.
  - exfalso. apply Hfree. unfold conflicts. rewrite <- Eo, <- En.
    split; [done|]. exists k1, r1. by split.
  - by eapply Hinv.
Qed.
End CatalogueBehaviour.

Section CatalogueBehaviourWitness.
Import Project Integrity.

(** The service of tenant 1 and a service with the same name of tenant 2. *)
Lemma create_keeps_tenant_unique_witness :
  ∃ t', create (Sample.audit (Some 2)) {[1 := Sample.audit (Some 1)]} = inr t'
        ∧ tenant_unique t'.
Proof.
  eexists. split; [vm_compute; reflexivity|].
  apply (create_keeps_tenant_unique (Sample.audit (Some 2))
           {[1 := Sample.audit (Some 1)]});
    [|vm_compute; reflexivity].
  intros k1 k2 r1 r2 [<- <-]%lookup_singleton_Some [<- <-]%lookup_singleton_Some.
  done.
Defined.
End CatalogueBehaviourWitness.

(* ===================================================================== *)
(** * More on deletion                                                  *)
(* ===================================================================== *)
Section DeletionBehaviour.
Import Project Integrity.

Lemma kept_fmap_inv {A} (f : A → A) (c : gset Z) (t : gmap Z A) k x :
  without_keys c (f <$> t) !! k = Some x →
  (k ∉ c) ∧ ∃ x0, t !! k = Some x0 ∧ x = f x0.
Proof.
  rewrite lookup_without_keys. case_decide; [done|].
  rewrite lookup_fmap. destruct (t !! k) as [x0|]; [|done].
  intros [= <-]. eauto.
Qed.

Lemma kept_fmap {A} (f : A → A) (c : gset Z) (t : gmap Z A) k :
  is_Some (t !! k) → k ∉ c → is_Some (without_keys c (f <$> t) !! k).
Proof.
  intros [x Hx] Hk. rewrite lookup_without_keys, decide_False by done.
  rewrite lookup_fmap, Hx. by eexists.
Qed.

Lemma kept_inv {A} (c : gset Z) (t : gmap Z A) k x :
  without_keys c t !! k = Some x → (k ∉ c) ∧ t !! k = Some x.
Proof. rewrite lookup_without_keys. by case_decide. Qed.

Lemma kept {A} (c : gset Z) (t : gmap Z A) k :
  is_Some (t !! k) → k ∉ c → is_Some (without_keys c t !! k).
Proof. intros Hx Hk. by rewrite lookup_without_keys, decide_False. Qed.

Lemma delete_row_inr db target db' :
  delete_row db target = inr db' ↔
    protected_by db target = None ∧ db' = after_delete db target.
Proof.
  unfold delete_row. destruct (protected_by db target); naive_solver.
Qed.

Lemma business_cycle_clear_creator target a :
  FunctionalArea.business_cycle (clear_creator target a)
  = FunctionalArea.business_cycle a.
Proof. unfold clear_creator. by case_decide. Qed.

Lemma not_in_keys_where {A} (P : A → Prop) `{!∀ x, Decision (P x)}
    (t : gmap Z A) (c0 : gset Z) k x :
  k ∉ c0 ∪ keys_where P t → t !! k = Some x → ¬ P x.
Proof.
  intros Hk Hx HP. apply Hk, elem_of_union. right.
  apply elem_of_keys_where. eauto.
Qed.

(** When nothing protects the collected rows, what the collector leaves
    has no foreign key without its row. *)
Lemma after_delete_consistent db target :
  consistent db →
  protected_by db target = None →
  consistent (after_delete db target).
Proof.
  intros Hc (Hps & Hpb & Hpa)%protected_by_None.
  split; cbn [after_delete functional_areas business_cycles industries
    services providers generated_rfps rfp_services rfp_business_cycles
    rfp_areas submitted_rfps finalized_rfps response_rfps fa_sessions].
  - intros k a (Hk & a0 & Ha0 & ->)%kept_fmap_inv.
    rewrite business_cycle_clear_creator.
    apply kept_fmap; [by eapply (area_cycle db Hc)|].
    intros Hb. unfold functional_areas_deleted in Hk.
    by eapply (not_in_keys_where _ _ _ _ _ Hk Ha0).
  - intros k p (Hk & p0 & Hp0 & ->)%kept_fmap_inv. cbn [forget_users GeneratedRFP.industry].
    apply kept_fmap; [by eapply (rfp_industry db Hc)|].
    intros Hi. unfold generated_rfps_deleted in Hk.
    eapply (not_in_keys_where _ _ _ _ _ Hk Hp0). by right.
  - intros j r [Hj Hr]%kept_inv.
    pose proof (service_join_rfp db Hc j r Hr) as Hp.
    unfold rfp_services_deleted in Hj.
    pose proof (not_in_keys_where _ _ _ _ _ Hj Hr) as Hn. cbn beta in Hn.
    destruct (ProjectGeneratedRFPService.generated_rfp r) as [p|]; [|done].
    unfold points_into, refs in *. by apply kept_fmap.
  - intros j r [Hj Hr]%kept_inv.
    pose proof (service_join_service db Hc j r Hr) as Hs.
    specialize (Hps j r Hr).
    destruct (ProjectGeneratedRFPService.service r) as [s|]; [|done].
    unfold points_into, refs in *. by apply kept_fmap.
  - intros j r [Hj Hr]%kept_inv.
    apply kept_fmap; [by eapply (cycle_join_rfp db Hc)|].
    unfold rfp_business_cycles_deleted in Hj.
    by eapply (not_in_keys_where _ _ _ _ _ Hj Hr).
  - intros j r [Hj Hr]%kept_inv.
    apply kept_fmap; [by eapply (cycle_join_cycle db Hc)|]. by eapply Hpb.
  - intros j r [Hj Hr]%kept_inv.
    apply kept_fmap; [by eapply (area_join_rfp db Hc)|].
    unfold rfp_areas_deleted in Hj.
    by eapply (not_in_keys_where _ _ _ _ _ Hj Hr).
  - intros j r [Hj Hr]%kept_inv.
    apply kept_fmap; [by eapply (area_join_area db Hc)|]. by eapply Hpa.
  - intros k s [Hk Hs]%kept_inv.
    pose proof (submitted_rfp db Hc k s Hs) as Hp.
    unfold submitted_rfps_deleted in Hk. rewrite elem_of_keys_where in Hk.
    destruct (SubmittedRFP.rfp s) as [p|] eqn:Ep; [|done].
    unfold points_into in *. apply kept_fmap; [done|]. intros Hin. apply Hk.
    exists s. split; [done|]. left. by rewrite Ep.
  - intros k f. rewrite lookup_fmap.
    destruct (finalized_rfps db !! k) as [f0|] eqn:Hf0; [|done].
    intros [= <-]. pose proof (finalized_source db Hc k f0 Hf0) as Hp.
    unfold clear_source. case_decide as Hr; [done|].
    destruct (FinalizedRFP.source_rfp f0) as [p|]; [|done].
    unfold points_into, refs in *. by apply kept_fmap.
  - intros k r [Hk Hr]%kept_inv.
    unfold response_rfps_deleted in Hk. rewrite elem_of_keys_where in Hk.
    apply kept_fmap; [by eapply (response_provider db Hc)|]. naive_solver.
  - intros k r [Hk Hr]%kept_inv.
    unfold response_rfps_deleted in Hk. rewrite elem_of_keys_where in Hk.
    apply kept_fmap; [by eapply (response_rfp db Hc)|]. naive_solver.
  - intros k r [Hk Hr]%kept_inv.
    unfold response_rfps_deleted in Hk. rewrite elem_of_keys_where in Hk.
    apply kept; [by eapply (response_submitted db Hc)|]. naive_solver.
  - intros k s [Hk Hs]%kept_inv.
    unfold fa_sessions_deleted in Hk. rewrite elem_of_keys_where in Hk.
    apply kept_fmap; [by eapply (session_area db Hc)|]. naive_solver.
Qed.

(** X18. Deletion keeps referential integrity: when every foreign key between
    the tables points at a stored row, it still does after any deletion
    that goes through. *)
Theorem delete_keeps_consistency db target db' :
  consistent db →
  delete_row db target = inr db' →
  consistent db'.
Proof.
  intros Hc [Hfree ->]%delete_row_inr. by apply after_delete_consistent.
Qed.

Lemma sample_consistent : consistent Sample.db.
Proof.
  split; cbn; intros k x Hk;
    first [ by rewrite lookup_empty in Hk
          | apply lookup_singleton_Some in Hk as [<- <-]; cbn;
            eexists; reflexivity ].
Qed.

(** Deleting the proposal of the sample database. *)
Lemma delete_keeps_consistency_witness :
  ∃ db', delete_row Sample.db (TGeneratedRFP 100) = inr db' ∧ consistent db'.
Proof.
  eexists. split; [vm_compute; reflexivity|].
  apply (delete_keeps_consistency Sample.db (TGeneratedRFP 100));
    [apply sample_consistent | vm_compute; reflexivity].
Defined.

Ltac creator_cleared :=
  let E := fresh in
  intros ? ? (_ & ? & _ & ->)%kept_fmap_inv;
  rewrite clear_creator_user; case_decide as E; [done|exact E].

(** X19. Once a user is deleted no row refers to it: not as creator of a
    catalogue row, not as owner or allowed user of a proposal, not in a
    submission, a response or a session. *)
Theorem delete_user_leaves_no_reference db u :
  ∃ db', delete_row db (TUser u) = inr db' ∧ unreferenced u db'.
Proof.
  exists (after_delete db (TUser u)). split; [apply delete_user_returns|].
  split; cbn [after_delete functional_areas business_cycles industries
    services providers generated_rfps submitted_rfps response_rfps fa_sessions].
  - creator_cleared.
  - creator_cleared.
  - creator_cleared.
  - creator_cleared.
  - creator_cleared.
  - intros k r (Hk & r0 & Hr0 & ->)%kept_fmap_inv.
    cbn [forget_users GeneratedRFP.user GeneratedRFP.allowed_users users_deleted].
    split; [|set_solver].
    intros Hu. apply Hk, generated_rfps_deleted_spec. right.
    exists r0. split; [done|]. left. by rewrite Hu.
  - intros k r [Hk Hr]%kept_inv.
    unfold submitted_rfps_deleted in Hk. rewrite elem_of_keys_where in Hk.
    intros Hu. apply Hk. exists r. split; [done|]. right.
    rewrite Hu. cbn. set_solver.
  - intros k r [Hk Hr]%kept_inv.
    unfold response_rfps_deleted in Hk. rewrite elem_of_keys_where in Hk.
    intros Hu. apply Hk. exists r. split; [done|]. right. right. left.
    rewrite Hu. cbn. set_solver.
  - intros k r [Hk Hr]%kept_inv.
    unfold fa_sessions_deleted in Hk. rewrite elem_of_keys_where in Hk.
    intros Hu. apply Hk. exists r. split; [done|]. left.
    rewrite Hu. cbn. set_solver.
Qed.

(** X20. Deleting a proposal keeps every finalized row: the rows made from it
    lose their [source_rfp] and nothing else, the others are as they were;
    the five catalogue tables are not touched. *)
Theorem delete_proposal_detaches_snapshots db p :
  ∃ db', delete_row db (TGeneratedRFP p) = inr db'
    ∧ (∀ k, finalized_rfps db' !! k
            = (λ f, if decide (FinalizedRFP.source_rfp f = Some p)
                    then FinalizedRFP.mk None (FinalizedRFP.organization f)
                           (FinalizedRFP.status f) (FinalizedRFP.start_date f)
                           (FinalizedRFP.end_date f) (FinalizedRFP.snapshot_data f)
                    else f) <$> finalized_rfps db !! k)
    ∧ industries db' = industries db
    ∧ services db' = services db
    ∧ business_cycles db' = business_cycles db
    ∧ functional_areas db' = functional_areas db
    ∧ providers db' = providers db.
Proof.
  destruct (delete_generated_rfp_cascades db p) as (db' & E & _).
  exists db'. split; [done|].
  apply delete_row_inr in E as [_ ->].
  cbn [after_delete functional_areas business_cycles industries
    services providers finalized_rfps].
  assert (functional_areas_deleted db (TGeneratedRFP p) = ∅) as ->
    by by apply functional_areas_deleted_join.
  rewrite !clear_creator_id by done.
  cbn [industries_deleted services_deleted business_cycles_deleted
    providers_deleted].
  rewrite !without_keys_empty.
  split; [|done].
  intros k. rewrite lookup_fmap.
  destruct (finalized_rfps db !! k) as [f|]; [|done]. cbn. f_equal.
  unfold clear_source.
  assert (refs (FinalizedRFP.source_rfp f) (generated_rfps_deleted db (TGeneratedRFP p))
          ↔ FinalizedRFP.source_rfp f = Some p) as Hiff.
  { destruct (FinalizedRFP.source_rfp f) as [q|]; cbn; [|naive_solver].
    rewrite generated_rfps_deleted_spec. naive_solver. }
  destruct (decide (refs _ _)) as [Hr|Hr], (decide (_ = Some p)) as [Ep|Ep];
    try done; by apply Hiff in Hr || (exfalso; by apply Hr, Hiff).
Qed.

(** X21. A deletion fails exactly when a join row protects what would be
    deleted: a service or a functional area that a join row points at, a
    business cycle that a join row points at or one of whose functional
    areas a join row points at.  Deleting anything else always goes
    through. *)
Theorem delete_fails_exactly_when_protected db target :
  (∃ e, delete_row db target = inl e) ↔
    match target with
    | TService s =>
        ∃ j row, rfp_services db !! j = Some row
                 ∧ ProjectGeneratedRFPService.service row = Some s
    | TBusinessCycle b =>
        (∃ j row, rfp_business_cycles db !! j = Some row
                  ∧ ProjectGeneratedRFPBusinessCycle.business_cycle row = b)
        ∨ (∃ j row a, rfp_areas db !! j = Some row
                      ∧ functional_areas db !! ProjectGeneratedRFPArea.area row
                        = Some a
                      ∧ FunctionalArea.business_cycle a = b)
    | TFunctionalArea a =>
        ∃ j row, rfp_areas db !! j = Some row
                 ∧ ProjectGeneratedRFPArea.area row = a
    | _ => False
    end.
Proof.
  assert ((∃ e, delete_row db target = inl e) ↔
            (∃ j row, rfp_services db !! j = Some row
               ∧ refs (ProjectGeneratedRFPService.service row)
                      (services_deleted target))
            ∨ (∃ j row, rfp_business_cycles db !! j = Some row
                 ∧ ProjectGeneratedRFPBusinessCycle.business_cycle row
                   ∈ business_cycles_deleted target)
            ∨ (∃ j row, rfp_areas db !! j = Some row
                 ∧ ProjectGeneratedRFPArea.area row
                   ∈ functional_areas_deleted db target)) as ->.
  { unfold delete_row, protected_by.
    repeat case_decide;
      repeat match goal with
      | H : ¬ map_Exists _ _ |- _ => rewrite map_not_Exists in H
      end;
      (split; [intros [e He]|intros Hex]); try done; eauto.
    destruct Hex as [(j & row & Hj & Hr)|[(j & row & Hj & Hr)|(j & row & Hj & Hr)]];
      exfalso;
      match goal with
      | H : map_Forall _ ?t, Hj : ?t !! _ = Some _ |- _ =>
          by apply (H _ _ Hj)
      end. }
  destruct target; cbn [services_deleted business_cycles_deleted];
    try setoid_rewrite functional_areas_deleted_spec.
  all: try (split; [|done];
            intros [(j & row & _ & Hr)|[(j & row & _ & Hr)|(j & row & _ & Hr)]];
            first [ by apply refs_empty in Hr
                  | set_solver
                  | by destruct Hr as [?|(? & _ & ?)] ]).
  - split.
    + intros [(j & row & Hj & Hr%refs_singleton)|[(j & row & _ & Hr)|(j & row & _ & Hr)]];
        [eauto | set_solver | by destruct Hr as [?|(? & _ & ?)]].
    + intros (j & row & Hj & Hs). left. exists j, row. split; [done|].
      by apply refs_singleton.
  - split.
    + intros [(j & row & _ & Hr)|[(j & row & Hj & Hr)|(j & row & Hj & Hr)]].
      * by apply refs_empty in Hr.
      * left. exists j, row. split; [done|]. set_solver.
      * right. destruct Hr as [?|(a & Ha & [= ->])]; [done|].
        by exists j, row, a.
    + intros [(j & row & Hj & <-)|(j & row & a & Hj & Ha & <-)]; right.
      * left. exists j, row. split; [done|]. set_solver.
      * right. exists j, row. split; [done|]. right. eauto.
  - split.
    + intros [(j & row & _ & Hr)|[(j & row & _ & Hr)|(j & row & Hj & Hr)]].
      * by apply refs_empty in Hr.
      * set_solver.
      * destruct Hr as [[= ->]|(? & _ & ?)]; [eauto|done].
    + intros (j & row & Hj & <-). right. right. exists j, row.
      split; [done|]. by left.
Qed.

(** X22. What goes with a business cycle: when its deletion goes through, the
    cycle, its functional areas and the sessions on those areas are gone,
    and every other functional area and session is kept as it was. *)
Theorem delete_business_cycle_cascades db b db' :
  delete_row db (TBusinessCycle b) = inr db' →
  business_cycles db' !! b = None
  ∧ (∀ k a, functional_areas db' !! k = Some a ↔
        functional_areas db !! k = Some a ∧ FunctionalArea.business_cycle a ≠ b)
  ∧ (∀ k s, fa_sessions db' !! k = Some s ↔
        fa_sessions db !! k = Some s
        ∧ ∀ a, functional_areas db
               !! ProjectFunctionalAreaSession.functional_area s = Some a →
               FunctionalArea.business_cycle a ≠ b).
Proof.
  intros [_ ->]%delete_row_inr.
  cbn [after_delete functional_areas business_cycles fa_sessions].
  split; [|split].
  - rewrite lookup_without_keys, decide_True; [done|]. cbn. set_solver.
  - intros k a. rewrite lookup_without_keys, clear_creator_id by done.
    case_decide as Hin.
    + apply functional_areas_deleted_spec in Hin.
      destruct Hin as [[=]|(a' & Ha' & [= E])]. naive_solver.
    + rewrite functional_areas_deleted_spec in Hin.
      split; [|naive_solver]. intros Ha. split; [done|].
      intros E. apply Hin. right. exists a. by rewrite E.
  - intros k s. rewrite lookup_without_keys.
    case_decide as Hin; unfold fa_sessions_deleted in Hin;
      rewrite elem_of_keys_where in Hin; cbn [users_deleted] in Hin;
      setoid_rewrite functional_areas_deleted_spec in Hin.
    + split; [done|]. intros [Hs Hno].
      destruct Hin as (s' & Hs' & [?|[[=]|(a & Ha & [= E])]]); [set_solver|].
      assert (s' = s) as -> by congruence. exfalso. by eapply Hno.
    + split; [|naive_solver]. intros Hs. split; [done|].
      intros a Ha E. apply Hin. exists s. split; [done|]. right. right.
      exists a. by rewrite E.
Qed.

(** Deleting the business cycle of the sample database once the join rows
    are removed. *)
Lemma delete_business_cycle_cascades_witness :
  ∃ db', delete_row Sample.unjoined (TBusinessCycle 1) = inr db'
    ∧ business_cycles db' !! 1 = None
    ∧ functional_areas db' !! 10 = None.
Proof.
  eexists. split; [vm_compute; reflexivity|].
  match goal with |- business_cycles ?d !! _ = _ ∧ _ =>
    destruct (delete_business_cycle_cascades Sample.unjoined 1 d)
      as (Hb & Ha & _); [vm_compute; reflexivity|] end.
  split; [exact Hb|].
  match goal with |- ?l = None => destruct l as [a|] eqn:E; [|done] end.
  apply Ha in E as [E Hne].
  change (functional_areas Sample.unjoined)
    with ({[10 := Sample.invoicing]} : gmap Z FunctionalArea.t) in E.
  apply lookup_singleton_Some in E as [_ <-]. done.
Defined.
End DeletionBehaviour.

(* ===================================================================== *)
(** * Changes to the join tables of a proposal                          *)
(* ===================================================================== *)
Section MutationBehaviour.
Import Project Integrity.

Lemma joins_unique_sub db db' :
  (∀ j r, rfp_services db' !! j = Some r → rfp_services db !! j = Some r) →
  (∀ j r, rfp_business_cycles db' !! j = Some r →
          rfp_business_cycles db !! j = Some r) →
  (∀ j r, rfp_areas db' !! j = Some r → rfp_areas db !! j = Some r) →
  joins_unique db → joins_unique db'.
Proof.
  intros Hs Hb Ha [Us Ub Ua]. split.
  - intros j1 j2 r1 r2 H1%Hs H2%Hs. by apply Us.
  - intros j1 j2 r1 r2 H1%Hb H2%Hb. by apply Ub.
  - intros j1 j2 r1 r2 H1%Ha H2%Ha. by apply Ua.
Qed.

Lemma lookup_filter_sub {A} (P : Z * A → Prop) `{!∀ x, Decision (P x)}
    (t : gmap Z A) j r :
  filter P t !! j = Some r → t !! j = Some r.
Proof. by intros [? _]%map_lookup_filter_Some. Qed.

Lemma mutate_keeps_joins_unique p m db db' :
  joins_unique db → mutate p m db = inr db' → joins_unique db'.
Proof.
  intros Hu. pose proof Hu as [Us Ub Ua].
  destruct m; cbn [mutate].
  - case_decide as Hex; [by intros [= <-]|].
    repeat case_decide; try done. intros [= <-].
    rewrite map_not_Exists in Hex.
    pose proof (next_pk_fresh (rfp_services db)) as Hk.
    split; cbn [set_rfp_services rfp_services rfp_business_cycles rfp_areas];
      [|done|done].
    intros j1 j2 r1 r2 H1 H2 Hg Hs Eg Es.
    apply lookup_insert_Some in H1 as [[<- <-]|[Hk1 H1]];
      apply lookup_insert_Some in H2 as [[<- <-]|[Hk2 H2]]; try done.
    + exfalso. apply (Hex _ _ H2). cbn in Eg, Es. by split.
    + exfalso. apply (Hex _ _ H1). cbn in Eg, Es. by split.
    + by eapply Us.
  - intros [= <-]. eapply joins_unique_sub; [| | |done]; cbn; try done.
    intros j r. apply lookup_filter_sub.
  - case_decide as Hex; [by intros [= <-]|].
    repeat case_decide; try done. intros [= <-].
    rewrite map_not_Exists in Hex.
    pose proof (next_pk_fresh (rfp_business_cycles db)) as Hk.
    split; cbn [set_rfp_business_cycles rfp_services rfp_business_cycles rfp_areas];
      [done| |done].
    intros j1 j2 r1 r2 H1 H2 Eg Eb.
    apply lookup_insert_Some in H1 as [[<- <-]|[Hk1 H1]];
      apply lookup_insert_Some in H2 as [[<- <-]|[Hk2 H2]]; try done.
    + exfalso. apply (Hex _ _ H2). cbn in Eg, Eb. by split.
    + exfalso. apply (Hex _ _ H1). cbn in Eg, Eb. by split.
    + by eapply Ub.
  - intros [= <-]. eapply joins_unique_sub; [| | |done]; cbn; try done.
    intros j r. apply lookup_filter_sub.
  - case_decide as Hex; [done|].
    repeat case_decide; try done. intros [= <-].
    rewrite map_not_Exists in Hex.
    pose proof (next_pk_fresh (rfp_areas db)) as Hk.
    split; cbn [set_rfp_areas rfp_services rfp_business_cycles rfp_areas];
      [done|done|].
    intros j1 j2 r1 r2 H1 H2 Eg Ea.
    apply lookup_insert_Some in H1 as [[<- <-]|[Hk1 H1]];
      apply lookup_insert_Some in H2 as [[<- <-]|[Hk2 H2]]; try done.
    + exfalso. apply (Hex _ _ H2). cbn in Eg, Ea. by split.
    + exfalso. apply (Hex _ _ H1). cbn in Eg, Ea. by split.
    + by eapply Ua.
  - intros [= <-]. eapply joins_unique_sub; [| | |done]; cbn; try done.
    intros j r. apply lookup_filter_sub.
  - destruct (generated_rfps db !! p); [|by intros [= <-]].
    destruct (refused a db); [done|]. intros [= <-].
    by eapply joins_unique_sub; [| | |done].
  - intros [_ ->]%delete_row_inr.
    eapply joins_unique_sub; [| | |done]; cbn; intros j r [_ ?]%kept_inv; done.
Qed.

(** X23. The unique constraints of the three join tables hold after every
    sequence of changes to a proposal when they held before: a proposal
    never has a service, a business cycle or a functional area twice. *)
Theorem changes_keep_joins_unique p ms db db' :
  joins_unique db → mutate_all p ms db = inr db' → joins_unique db'.
Proof.
  revert db. induction ms as [|m ms IH]; intros db Hu; cbn [mutate_all].
  - by intros [= <-].
  - destruct (mutate p m db) as [e|db1] eqn:E; [done|].
    apply IH. by eapply mutate_keeps_joins_unique.
Qed.

Lemma stocked_joins_unique : joins_unique Sample.stocked.
Proof.
  split; cbn; intros j1 j2 r1 r2 [<- <-]%lookup_singleton_Some
    [<- <-]%lookup_singleton_Some; done.
Qed.

(** Five changes to the sample proposal; service 2 and functional area 11
    are stored and not yet joined to it. *)
Lemma changes_keep_joins_unique_witness :
  ∃ db', mutate_all 100 [AddService 2; AddService 2; RemoveArea 10;
                         AddArea 11 ProjectGeneratedRFPArea.LOW;
                         AddBusinessCycle 1] Sample.stocked
         = inr db'
       ∧ joins_unique db'.
Proof.
  eexists. split; [vm_compute; reflexivity|].
  apply (changes_keep_joins_unique 100
           [AddService 2; AddService 2; RemoveArea 10;
            AddArea 11 ProjectGeneratedRFPArea.LOW;
            AddBusinessCycle 1] Sample.stocked);
    [apply stocked_joins_unique | vm_compute; reflexivity].
Defined.

(** X24. Adding what is there already: adding a service again changes nothing,
    while creating a second join row for a functional area the proposal has
    is refused with the name of the constraint, whatever the priority. *)
Theorem adding_again p db db1 :
  (∀ s, mutate p (AddService s) db = inr db1 →
        mutate p (AddService s) db1 = inr db1)
  ∧ (∀ a priority priority',
       mutate p (AddArea a priority) db = inr db1 →
       mutate p (AddArea a priority') db1 = inl (IntegrityError "unique_rfp_area")).
Proof.
  split.
  - intros s Hadd. cbn [mutate] in Hadd.
    case_decide as Hex; [|repeat case_decide; try done];
      injection Hadd as <-; cbn [mutate].
    + by rewrite decide_True.
    + rewrite decide_True; [done|].
      cbn [set_rfp_services rfp_services].
      exists (next_pk (rfp_services db)), (ProjectGeneratedRFPService.mk (Some p) (Some s)).
      by rewrite lookup_insert_eq.
  - intros a priority priority' Hadd. cbn [mutate] in Hadd.
    case_decide as Hex; [done|]. repeat case_decide; try done.
    injection Hadd as <-. cbn [mutate].
    rewrite decide_True; [done|]. cbn [set_rfp_areas rfp_areas].
    exists (next_pk (rfp_areas db)), (ProjectGeneratedRFPArea.mk p a priority).
    by rewrite lookup_insert_eq.
Qed.

(** The stored functional area 11 joined twice to the sample proposal. *)
Lemma adding_again_witness :
  ∃ db1, mutate 100 (AddArea 11 ProjectGeneratedRFPArea.LOW) Sample.stocked
         = inr db1
         ∧ mutate 100 (AddArea 11 ProjectGeneratedRFPArea.HIGH) db1
           = inl (IntegrityError "unique_rfp_area").
Proof.
  eexists. split; [vm_compute; reflexivity|].
  refine (proj2 (adding_again 100 Sample.stocked _) 11 ProjectGeneratedRFPArea.LOW
            ProjectGeneratedRFPArea.HIGH _).
  vm_compute. reflexivity.
Defined.

(** X25. Adding a service a proposal does not have and removing it again gives
    back the database as it was; in between the service is one of the
    services of the proposal. *)
Theorem add_then_remove_service p s db db1 :
  (∀ j row, rfp_services db !! j = Some row →
     ¬ (ProjectGeneratedRFPService.generated_rfp row = Some p
        ∧ ProjectGeneratedRFPService.service row = Some s)) →
  mutate p (AddService s) db = inr db1 →
  s ∈ services_of p db1
  ∧ mutate p (RemoveService s) db1 = inr db.
Proof.
  intros Hnone. cbn [mutate].
  rewrite decide_False by (intros (j & row & Hj & Hrow); by eapply Hnone).
  repeat case_decide; try done.
  intros [= <-]. pose proof (next_pk_fresh (rfp_services db)) as Hk.
  split.
  - unfold services_of. apply list_elem_of_omap.
    exists (next_pk (rfp_services db),
            ProjectGeneratedRFPService.mk (Some p) (Some s)).
    split.
    + apply elem_of_map_to_list. cbn [set_rfp_services rfp_services].
      by rewrite lookup_insert_eq.
    + cbn. by rewrite decide_True.
  - f_equal. cbn [set_rfp_services rfp_services industries services
      business_cycles functional_areas providers generated_rfps
      rfp_business_cycles rfp_areas submitted_rfps finalized_rfps
      response_rfps fa_sessions].
    replace (filter _ (<[_ := _]> (rfp_services db))) with (rfp_services db);
      [by destruct db|].
    apply map_eq. intros j. symmetry.
    destruct (rfp_services db !! j) as [row|] eqn:Hj.
    + apply map_lookup_filter_Some. split.
      * rewrite lookup_insert_ne; [done|]. intros <-. congruence.
      * cbn. by eapply Hnone.
    + apply map_lookup_filter_None.
      destruct (decide (j = next_pk (rfp_services db))) as [->|Hne].
      * right. intros row. rewrite lookup_insert_eq. intros [= <-]. cbn.
        intros Hneg. by apply Hneg.
      * left. by rewrite lookup_insert_ne.
Qed.

(** The stored service 2 added to and removed from the sample proposal. *)
Lemma add_then_remove_service_witness :
  ∃ db1, mutate 100 (AddService 2) Sample.stocked = inr db1
         ∧ 2 ∈ services_of 100 db1
         ∧ mutate 100 (RemoveService 2) db1 = inr Sample.stocked.
Proof.
  eexists. split; [vm_compute; reflexivity|].
  apply (add_then_remove_service 100 2 Sample.stocked); [|vm_compute; reflexivity].
  intros j row Hj. cbn in Hj.
  apply lookup_singleton_Some in Hj as [<- <-]. cbn. intros [_ [=]].
Defined.

(** Storing a row under a key takes no row away. *)
Lemma points_into_insert {A} fk (t : gmap Z A) k x :
  points_into fk t → points_into fk (<[k := x]> t).
Proof.
  destruct fk as [k'|]; [|done]. cbn. intros Hk.
  apply lookup_insert_is_Some'. by right.
Qed.

Lemma is_Some_insert {A} (t : gmap Z A) k k' x :
  is_Some (t !! k') → is_Some (<[k := x]> t !! k').
Proof. intros Hk. apply lookup_insert_is_Some'. by right. Qed.

(** An assignment that is not refused leaves the proposal with a stored
    industry. *)
Lemma industry_assign a r db :
  refused a db = None →
  is_Some (industries db !! GeneratedRFP.industry r) →
  is_Some (industries db !! GeneratedRFP.industry (assign a r)).
Proof.
  destruct a; cbn; try done.
  case_decide as Hi; [|done]. intros _ _. by apply elem_of_dom.
Qed.

Lemma mutate_keeps_consistency p m db db' :
  consistent db → mutate p m db = inr db' → consistent db'.
Proof.
  intros Hc. pose proof Hc as [].
  destruct m; cbn [mutate]; intros Hm.
  - case_decide; [by injection Hm as <-|].
    repeat case_decide; try done. injection Hm as <-.
    split; cbn [set_rfp_services functional_areas business_cycles industries
      services providers generated_rfps rfp_services rfp_business_cycles
      rfp_areas submitted_rfps finalized_rfps response_rfps fa_sessions];
      try done.
    + intros j r [[_ <-]|[_ Hj]]%lookup_insert_Some;
        [cbn; by apply elem_of_dom | eauto].
    + intros j r [[_ <-]|[_ Hj]]%lookup_insert_Some;
        [cbn; by apply elem_of_dom | eauto].
  - injection Hm as <-.
    split; cbn [set_rfp_services functional_areas business_cycles industries
      services providers generated_rfps rfp_services rfp_business_cycles
      rfp_areas submitted_rfps finalized_rfps response_rfps fa_sessions];
      try done; intros j r [Hj _]%map_lookup_filter_Some; eauto.
  - case_decide; [by injection Hm as <-|].
    repeat case_decide; try done. injection Hm as <-.
    split; cbn [set_rfp_business_cycles functional_areas business_cycles
      industries services providers generated_rfps rfp_services
      rfp_business_cycles rfp_areas submitted_rfps finalized_rfps
      response_rfps fa_sessions]; try done.
    + intros j r [[_ <-]|[_ Hj]]%lookup_insert_Some;
        [cbn; by apply elem_of_dom | eauto].
    + intros j r [[_ <-]|[_ Hj]]%lookup_insert_Some;
        [cbn; by apply elem_of_dom | eauto].
  - injection Hm as <-.
    split; cbn [set_rfp_business_cycles functional_areas business_cycles
      industries services providers generated_rfps rfp_services
      rfp_business_cycles rfp_areas submitted_rfps finalized_rfps
      response_rfps fa_sessions];
      try done; intros j r [Hj _]%map_lookup_filter_Some; eauto.
  - case_decide; [done|].
    repeat case_decide; try done. injection Hm as <-.
    split; cbn [set_rfp_areas functional_areas business_cycles industries
      services providers generated_rfps rfp_services rfp_business_cycles
      rfp_areas submitted_rfps finalized_rfps response_rfps fa_sessions];
      try done.
    + intros j r [[_ <-]|[_ Hj]]%lookup_insert_Some;
        [cbn; by apply elem_of_dom | eauto].
    + intros j r [[_ <-]|[_ Hj]]%lookup_insert_Some;
        [cbn; by apply elem_of_dom | eauto].
  - injection Hm as <-.
    split; cbn [set_rfp_areas functional_areas business_cycles industries
      services providers generated_rfps rfp_services rfp_business_cycles
      rfp_areas submitted_rfps finalized_rfps response_rfps fa_sessions];
      try done; intros j r [Hj _]%map_lookup_filter_Some; eauto.
  - destruct (generated_rfps db !! p) as [r|] eqn:Hr; [|by injection Hm as <-].
    destruct (refused a db) eqn:Hrefused; [done|]. injection Hm as <-.
    split; cbn [set_generated_rfps functional_areas business_cycles industries
      services providers generated_rfps rfp_services rfp_business_cycles
      rfp_areas submitted_rfps finalized_rfps response_rfps fa_sessions];
      try done.
    + intros k r' [[_ <-]|[_ Hk]]%lookup_insert_Some; [|eauto].
      apply industry_assign; eauto.
    + intros j r' Hj. apply points_into_insert. eauto.
    + intros j r' Hj. apply is_Some_insert. eauto.
    + intros j r' Hj. apply is_Some_insert. eauto.
    + intros j r' Hj. apply points_into_insert. eauto.
    + intros j r' Hj. apply points_into_insert. eauto.
    + intros j r' Hj. apply is_Some_insert. eauto.
  - apply delete_row_inr in Hm as [Hfree ->]. by apply after_delete_consistent.
Qed.

(** X26. Changes to a proposal keep referential integrity: when every
    foreign key between the tables points at a stored row, it still does
    after every sequence of changes that goes through; a join row is only
    stored for a stored proposal and a stored service, business cycle or
    functional area. *)
Theorem changes_keep_consistency p ms db db' :
  consistent db → mutate_all p ms db = inr db' → consistent db'.
Proof.
  revert db. induction ms as [|m ms IH]; intros db Hc; cbn [mutate_all].
  - by intros [= <-].
  - destruct (mutate p m db) as [e|db1] eqn:E; [done|].
    apply IH. by eapply mutate_keeps_consistency.
Qed.

Lemma stocked_consistent : consistent Sample.stocked.
Proof.
  split; cbn; intros k x Hk;
    repeat first
      [ by rewrite lookup_empty in Hk
      | apply lookup_singleton_Some in Hk as [<- <-]
      | apply lookup_insert_Some in Hk as [[<- <-]|[_ Hk]] ];
    cbn; eexists; reflexivity.
Qed.

(** Changes to the sample proposal, among them an assignment of its
    industry and its deletion. *)
Lemma changes_keep_consistency_witness :
  ∃ db', mutate_all 100 [AddService 2; AddArea 11 ProjectGeneratedRFPArea.LOW;
                         Update (SetIndustry 1); RemoveService 1; Delete]
           Sample.stocked = inr db'
         ∧ consistent db'.
Proof.
  eexists. split; [vm_compute; reflexivity|].
  apply (changes_keep_consistency 100
           [AddService 2; AddArea 11 ProjectGeneratedRFPArea.LOW;
            Update (SetIndustry 1); RemoveService 1; Delete] Sample.stocked);
    [apply stocked_consistent | vm_compute; reflexivity].
Defined.
End MutationBehaviour.
